(** * Dual-motor power recliner controller (sketch_aug21a.ino)

    A shallow embedding of the Arduino sketch: the global variables and the
    four relay output pins form the machine state, every function of the
    sketch is a computation in a small state-and-trace monad, and one call
    of [loop] is one control tick.  The trace records what the sketch does
    to the outside world (pin writes, serial output, delays), so that
    "which motor command was issued on this tick" is read off the trace and
    "which relay lines are asserted" is read off the output pins. *)

From Stdlib Require Import ZArith Bool String Ascii List Lia.
Import ListNotations.
Local Open Scope Z_scope.
Local Open Scope bool_scope.

Module Recliner.

(** ** Constants of the sketch *)

Definition motorLeftIn : Z := 4.
Definition motorLeftOut : Z := 7.
Definition motorRightIn : Z := 8.
Definition motorRightOut : Z := 12.

Definition upSwitchPin : Z := 2.
Definition downSwitchPin : Z := 3.

Definition leftSwitchPin : Z := 9.
Definition rightSwitchPin : Z := 10.

Definition NO_MOTOR : Z := 0.
Definition LEFT_MOTOR : Z := 1.
Definition RIGHT_MOTOR : Z := 2.
Definition BOTH_MOTOR : Z := 3.

Definition RUN_OFF : Z := 0.
Definition RUN_IN : Z := 1.
Definition RUN_OUT : Z := 2.

(** ** Machine integers

    [int] on the Arduino UNO (AVR) is 16 bits wide.  The sketch only ever
    decrements its counters; the wrap-around of two's complement is
    written out, and the theorems below say when it cannot occur. *)

Definition INT_MIN : Z := -32768.
Definition INT_MAX : Z := 32767.

Definition int_wrap (z : Z) : Z := (z - INT_MIN) mod 65536 + INT_MIN.

(** [x--] *)
Definition int_dec (x : Z) : Z := int_wrap (x - 1).

(** A C integer used as a condition. *)
Definition truthy (x : Z) : bool := negb (x =? 0).

(** ** Hardware: relay outputs, switch inputs, observable events *)

(** Latched levels of the four relay pins ([true] is HIGH: relay energised). *)
Record port : Type := mkPort {
  pinLeftIn : bool;
  pinLeftOut : bool;
  pinRightIn : bool;
  pinRightOut : bool
}.

(** Electrical levels of the four input pins during one call of
    [detect_switches] ([true] is HIGH).  The inputs are pulled up, so a
    closed switch reads LOW. *)
Record inputs : Type := mkInputs {
  level_up : bool;
  level_down : bool;
  level_left : bool;
  level_right : bool
}.

Inductive pin_mode : Type := OUTPUT | INPUT_PULLUP.

Inductive event : Type :=
| SerialBegin (baud : Z)
| PinMode (pin : Z) (mode : pin_mode)
| DigitalWrite (pin : Z) (level : bool)
| SerialPrint (msg : string)
| SerialPrintln (msg : string)
| Delay (ms : Z).

(** ** Global variables of the sketch, together with the output port *)

Record state : Type := mkState {
  fault : bool;
  fix_timer : Z;
  fix_direction : Z;
  left_switch : bool;
  right_switch : bool;
  up_switch : bool;
  down_switch : bool;
  prev_up : bool;
  prev_down : bool;
  next_left : bool;
  next_right : bool;
  delay_next : Z;
  pins : port
}.

Definition set_fault (v : bool) (s : state) : state :=
  mkState v (fix_timer s) (fix_direction s) (left_switch s) (right_switch s)
    (up_switch s) (down_switch s) (prev_up s) (prev_down s)
    (next_left s) (next_right s) (delay_next s) (pins s).

Definition set_fix_timer (v : Z) (s : state) : state :=
  mkState (fault s) v (fix_direction s) (left_switch s) (right_switch s)
    (up_switch s) (down_switch s) (prev_up s) (prev_down s)
    (next_left s) (next_right s) (delay_next s) (pins s).

Definition set_fix_direction (v : Z) (s : state) : state :=
  mkState (fault s) (fix_timer s) v (left_switch s) (right_switch s)
    (up_switch s) (down_switch s) (prev_up s) (prev_down s)
    (next_left s) (next_right s) (delay_next s) (pins s).

Definition set_left_switch (v : bool) (s : state) : state :=
  mkState (fault s) (fix_timer s) (fix_direction s) v (right_switch s)
    (up_switch s) (down_switch s) (prev_up s) (prev_down s)
    (next_left s) (next_right s) (delay_next s) (pins s).

Definition set_right_switch (v : bool) (s : state) : state :=
  mkState (fault s) (fix_timer s) (fix_direction s) (left_switch s) v
    (up_switch s) (down_switch s) (prev_up s) (prev_down s)
    (next_left s) (next_right s) (delay_next s) (pins s).

Definition set_up_switch (v : bool) (s : state) : state :=
  mkState (fault s) (fix_timer s) (fix_direction s) (left_switch s)
    (right_switch s) v (down_switch s) (prev_up s) (prev_down s)
    (next_left s) (next_right s) (delay_next s) (pins s).

Definition set_down_switch (v : bool) (s : state) : state :=
  mkState (fault s) (fix_timer s) (fix_direction s) (left_switch s)
    (right_switch s) (up_switch s) v (prev_up s) (prev_down s)
    (next_left s) (next_right s) (delay_next s) (pins s).

Definition set_prev_up (v : bool) (s : state) : state :=
  mkState (fault s) (fix_timer s) (fix_direction s) (left_switch s)
    (right_switch s) (up_switch s) (down_switch s) v (prev_down s)
    (next_left s) (next_right s) (delay_next s) (pins s).

Definition set_prev_down (v : bool) (s : state) : state :=
  mkState (fault s) (fix_timer s) (fix_direction s) (left_switch s)
    (right_switch s) (up_switch s) (down_switch s) (prev_up s) v
    (next_left s) (next_right s) (delay_next s) (pins s).

Definition set_delay_next (v : Z) (s : state) : state :=
  mkState (fault s) (fix_timer s) (fix_direction s) (left_switch s)
    (right_switch s) (up_switch s) (down_switch s) (prev_up s) (prev_down s)
    (next_left s) (next_right s) v (pins s).

Definition set_pins (v : port) (s : state) : state :=
  mkState (fault s) (fix_timer s) (fix_direction s) (left_switch s)
    (right_switch s) (up_switch s) (down_switch s) (prev_up s) (prev_down s)
    (next_left s) (next_right s) (delay_next s) v.

(** The output port after a write to [pin]; a write to a pin that drives
    no relay leaves the four relay lines alone. *)
Definition write_pin (pin : Z) (level : bool) (p : port) : port :=
  if pin =? motorLeftIn then
    mkPort level (pinLeftOut p) (pinRightIn p) (pinRightOut p)
  else if pin =? motorLeftOut then
    mkPort (pinLeftIn p) level (pinRightIn p) (pinRightOut p)
  else if pin =? motorRightIn then
    mkPort (pinLeftIn p) (pinLeftOut p) level (pinRightOut p)
  else if pin =? motorRightOut then
    mkPort (pinLeftIn p) (pinLeftOut p) (pinRightIn p) level
  else p.

(** The level read on an input pin (an unconnected pin reads HIGH through
    its pull-up). *)
Definition read_pin (i : inputs) (pin : Z) : bool :=
  if pin =? upSwitchPin then level_up i
  else if pin =? downSwitchPin then level_down i
  else if pin =? leftSwitchPin then level_left i
  else if pin =? rightSwitchPin then level_right i
  else true.

(** ** The monad: global state plus a trace of events *)

Definition M (A : Type) : Type := state -> A * state * list event.

Definition ret {A : Type} (a : A) : M A := fun s => (a, s, []).

Definition bind {A B : Type} (m : M A) (k : A -> M B) : M B :=
  fun s =>
    match m s with
    | (a, s1, t1) =>
        match k a s1 with
        | (b, s2, t2) => (b, s2, t1 ++ t2)
        end
    end.

Definition gets {A : Type} (f : state -> A) : M A := fun s => (f s, s, []).
Definition modify (f : state -> state) : M unit := fun s => (tt, f s, []).
Definition emit (e : event) : M unit := fun s => (tt, s, [e]).
Definition when (b : bool) (m : M unit) : M unit := if b then m else ret tt.

Declare Scope recliner_scope.
Delimit Scope recliner_scope with recliner.
Notation "x <- m ;; k" := (bind m (fun x => k))
  (at level 61, m at next level, right associativity) : recliner_scope.
Notation "m ;; k" := (bind m (fun _ => k))
  (at level 61, right associativity) : recliner_scope.
Local Open Scope recliner_scope.

(** ** Arduino primitives *)

Definition digitalWrite (pin : Z) (level : bool) : M unit :=
  modify (fun s => set_pins (write_pin pin level (pins s)) s) ;;
  emit (DigitalWrite pin level).

Definition digitalRead (i : inputs) (pin : Z) : M bool := ret (read_pin i pin).

Definition pinMode (pin : Z) (mode : pin_mode) : M unit := emit (PinMode pin mode).

Definition delay (ms : Z) : M unit := emit (Delay ms).

Definition newline : string := String (ascii_of_nat 10) EmptyString.

(** ** The functions of the sketch *)

Definition hw_setup : M unit :=
  emit (SerialBegin 9600) ;;
  pinMode motorLeftIn OUTPUT ;;
  pinMode motorLeftOut OUTPUT ;;
  pinMode motorRightIn OUTPUT ;;
  pinMode motorRightOut OUTPUT ;;
  pinMode upSwitchPin INPUT_PULLUP ;;
  pinMode downSwitchPin INPUT_PULLUP ;;
  pinMode leftSwitchPin INPUT_PULLUP ;;
  pinMode rightSwitchPin INPUT_PULLUP.

Definition set_motor_state (motors dir : Z) : M unit :=
  (if truthy (Z.land motors LEFT_MOTOR) then
     digitalWrite motorLeftIn (dir =? RUN_IN) ;;
     digitalWrite motorLeftOut (dir =? RUN_OUT)
   else
     digitalWrite motorLeftIn false ;;
     digitalWrite motorLeftOut false) ;;
  (if truthy (Z.land motors RIGHT_MOTOR) then
     digitalWrite motorRightIn (dir =? RUN_IN) ;;
     digitalWrite motorRightOut (dir =? RUN_OUT)
   else
     digitalWrite motorRightIn false ;;
     digitalWrite motorRightOut false).

Definition detect_switches (i : inputs) : M unit :=
  u <- digitalRead i upSwitchPin ;; modify (set_up_switch (negb u)) ;;
  d <- digitalRead i downSwitchPin ;; modify (set_down_switch (negb d)) ;;
  l <- digitalRead i leftSwitchPin ;; modify (set_left_switch (negb l)) ;;
  r <- digitalRead i rightSwitchPin ;; modify (set_right_switch (negb r)).

Definition setup (i : inputs) : M unit :=
  hw_setup ;;
  detect_switches i ;;
  set_motor_state BOTH_MOTOR RUN_OFF.

(** One pass of [loop]; each early [return] of the sketch closes a branch. *)
Definition loop (i : inputs) : M unit :=
  detect_switches i ;;
  l <- gets left_switch ;;
  r <- gets right_switch ;;
  when (l && r) (modify (set_fault true)) ;;
  u <- gets up_switch ;;
  d <- gets down_switch ;;
  when (u && d) (modify (set_fault true)) ;;
  f <- gets fault ;;
  if f then
    emit (SerialPrint ("fault!" ++ newline)) ;;
    delay 1000
  else
  dn <- gets delay_next ;;
  if truthy dn then
    modify (set_delay_next (int_dec dn)) ;;
    set_motor_state BOTH_MOTOR RUN_OFF ;;
    delay 1
  else
  ft <- gets fix_timer ;;
  fd <- gets fix_direction ;;
  if truthy ft && truthy fd then
    if negb u && negb d then
      set_motor_state BOTH_MOTOR RUN_OFF
    else
      modify (set_fix_timer (int_dec ft)) ;;
      ft' <- gets fix_timer ;;
      (if negb (truthy ft') then
         modify (set_fix_timer 0) ;;
         modify (set_fix_direction NO_MOTOR) ;;
         set_motor_state BOTH_MOTOR RUN_OFF ;;
         when (l || r) (modify (set_fault true))
       else
         fd' <- gets fix_direction ;;
         set_motor_state fd' RUN_IN) ;;
      delay 1
  else
  if l then
    modify (set_delay_next 10) ;;
    modify (set_fix_timer 750) ;;
    modify (set_fix_direction LEFT_MOTOR) ;;
    emit (SerialPrintln "fix left")
  else
  if r then
    modify (set_delay_next 10) ;;
    modify (set_fix_timer 750) ;;
    modify (set_fix_direction RIGHT_MOTOR) ;;
    emit (SerialPrintln "fix right")
  else
  pu <- gets prev_up ;;
  pd <- gets prev_down ;;
  if negb (Bool.eqb u pu) || negb (Bool.eqb d pd) then
    modify (set_prev_up u) ;;
    modify (set_prev_down d) ;;
    modify (set_delay_next 10)
  else
  if d then
    set_motor_state BOTH_MOTOR RUN_IN ;;
    delay 1
  else
  if u then
    set_motor_state BOTH_MOTOR RUN_OUT ;;
    delay 1
  else ret tt.

(** ** Ticks and runs *)

Definition exec {A : Type} (m : M A) (s : state) : state := snd (fst (m s)).
Definition trace_of {A : Type} (m : M A) (s : state) : list event := snd (m s).

(** One control tick: the state after one call of [loop], and what the call
    did to the outside world. *)
Definition step (s : state) (i : inputs) : state := exec (loop i) s.
Definition tick_trace (s : state) (i : inputs) : list event := trace_of (loop i) s.

(** The main program calls [loop] forever; a run is a finite prefix, one
    input snapshot per call. *)
Definition run (s : state) (ins : list inputs) : state := fold_left step ins s.

(** The globals as their initialisers leave them (statics without an
    initialiser are zero), all relay pins LOW after reset. *)
Definition power_on : state :=
  mkState false 0 0 false false false false false false false false 10
    (mkPort false false false false).

Definition boot (i : inputs) : state := exec (setup i) power_on.

Definition reachable (s : state) : Prop :=
  exists (i0 : inputs) (ins : list inputs), s = run (boot i0) ins.

(** ** Reading switches and traces *)

(** The input levels for given logical switch positions ([true] is
    pressed): the switches are active-low. *)
Definition switches (up down left right : bool) : inputs :=
  mkInputs (negb up) (negb down) (negb left) (negb right).

Definition sw_up (i : inputs) : bool := negb (level_up i).
Definition sw_down (i : inputs) : bool := negb (level_down i).
Definition sw_left (i : inputs) : bool := negb (level_left i).
Definition sw_right (i : inputs) : bool := negb (level_right i).

(** The pin writes of a trace, in order. *)
Fixpoint writes (t : list event) : list (Z * bool) :=
  match t with
  | [] => []
  | DigitalWrite pin level :: t' => (pin, level) :: writes t'
  | _ :: t' => writes t'
  end.

(** What one call [set_motor_state(motors, dir)] does to the outside world,
    and its pin writes. *)
Definition motor_events (motors dir : Z) : list event :=
  trace_of (set_motor_state motors dir) power_on.

Definition motor_writes (motors dir : Z) : list (Z * bool) :=
  writes (motor_events motors dir).

Definition port_off : port := mkPort false false false false.

(** The relay lines as one call [set_motor_state(motors, dir)] leaves them
    (the call writes all four pins, so the earlier levels do not matter). *)
Definition motor_port (motors dir : Z) : port :=
  pins (exec (set_motor_state motors dir) power_on).

(** The globals after [detect_switches]. *)
Definition sample (i : inputs) (s : state) : state := exec (detect_switches i) s.

(** The two tests at the head of [loop] that set [fault]. *)
Definition trips_fault (i : inputs) : bool :=
  (sw_left i && sw_right i) || (sw_up i && sw_down i).

(** The guard of the correction branch of [loop]. *)
Definition correcting (s : state) : bool :=
  truthy (fix_timer s) && truthy (fix_direction s).

(** The test [up_switch != prev_up || down_switch != prev_down]. *)
Definition transition (s : state) (i : inputs) : bool :=
  negb (Bool.eqb (sw_up i) (prev_up s))
  || negb (Bool.eqb (sw_down i) (prev_down s)).

(** The four writes of [set_motor_state(BOTH_MOTOR, RUN_OFF)]. *)
Definition off_events : list event :=
  [DigitalWrite motorLeftIn false; DigitalWrite motorLeftOut false;
   DigitalWrite motorRightIn false; DigitalWrite motorRightOut false].

(** The ranges the counters stay in, the pairing of [fix_timer] with
    [fix_direction], and the relay lines of one motor never both HIGH. *)
Definition well_formed (s : state) : Prop :=
  0 <= delay_next s <= 10 /\
  ((fix_timer s = 0 /\ fix_direction s = NO_MOTOR) \/
   (0 < fix_timer s <= 750 /\
    (fix_direction s = LEFT_MOTOR \/ fix_direction s = RIGHT_MOTOR))) /\
  pinLeftIn (pins s) && pinLeftOut (pins s) = false /\
  pinRightIn (pins s) && pinRightOut (pins s) = false.

(** [loop] as a relation: one constructor per [return] of the sketch, with
    the guards that lead to it, the globals it leaves and the trace. *)
Inductive tick_spec (s : state) (i : inputs) : state -> list event -> Prop :=
| TickFault :
    fault s || trips_fault i = true ->
    tick_spec s i (set_fault true (sample i s))
      [SerialPrint ("fault!" ++ newline); Delay 1000]
| TickDebounce :
    fault s = false -> trips_fault i = false ->
    truthy (delay_next s) = true ->
    tick_spec s i
      (set_pins port_off
         (set_delay_next (int_dec (delay_next s)) (sample i s)))
      (off_events ++ [Delay 1])
| TickPause :
    fault s = false -> trips_fault i = false ->
    truthy (delay_next s) = false -> correcting s = true ->
    sw_up i || sw_down i = false ->
    tick_spec s i (set_pins port_off (sample i s)) off_events
| TickExpire :
    fault s = false -> trips_fault i = false ->
    truthy (delay_next s) = false -> correcting s = true ->
    sw_up i || sw_down i = true ->
    truthy (int_dec (fix_timer s)) = false ->
    tick_spec s i
      (set_fault (sw_left i || sw_right i)
         (set_pins port_off
            (set_fix_direction NO_MOTOR (set_fix_timer 0 (sample i s)))))
      (off_events ++ [Delay 1])
| TickDrive :
    fault s = false -> trips_fault i = false ->
    truthy (delay_next s) = false -> correcting s = true ->
    sw_up i || sw_down i = true ->
    truthy (int_dec (fix_timer s)) = true ->
    tick_spec s i
      (set_pins (motor_port (fix_direction s) RUN_IN)
         (set_fix_timer (int_dec (fix_timer s)) (sample i s)))
      (motor_events (fix_direction s) RUN_IN ++ [Delay 1])
| TickFixLeft :
    fault s = false -> trips_fault i = false ->
    truthy (delay_next s) = false -> correcting s = false ->
    sw_left i = true ->
    tick_spec s i
      (set_fix_direction LEFT_MOTOR
         (set_fix_timer 750 (set_delay_next 10 (sample i s))))
      [SerialPrintln "fix left"]
| TickFixRight :
    fault s = false -> trips_fault i = false ->
    truthy (delay_next s) = false -> correcting s = false ->
    sw_left i = false -> sw_right i = true ->
    tick_spec s i
      (set_fix_direction RIGHT_MOTOR
         (set_fix_timer 750 (set_delay_next 10 (sample i s))))
      [SerialPrintln "fix right"]
| TickTransition :
    fault s = false -> trips_fault i = false ->
    truthy (delay_next s) = false -> correcting s = false ->
    sw_left i || sw_right i = false -> transition s i = true ->
    tick_spec s i
      (set_delay_next 10
         (set_prev_down (sw_down i) (set_prev_up (sw_up i) (sample i s))))
      []
| TickManual :
    fault s = false -> trips_fault i = false ->
    truthy (delay_next s) = false -> correcting s = false ->
    sw_left i || sw_right i = false -> transition s i = false ->
    tick_spec s i
      (if sw_down i then set_pins (motor_port BOTH_MOTOR RUN_IN) (sample i s)
       else if sw_up i then
         set_pins (motor_port BOTH_MOTOR RUN_OUT) (sample i s)
       else sample i s)
      (if sw_down i then motor_events BOTH_MOTOR RUN_IN ++ [Delay 1]
       else if sw_up i then motor_events BOTH_MOTOR RUN_OUT ++ [Delay 1]
       else []).

(** A tick on which the correction branch counts down: exactly one manual
    switch pressed, and not both limit switches. *)
Definition held (i : inputs) : bool :=
  xorb (sw_up i) (sw_down i) && negb (sw_left i && sw_right i).

(** A trace that energises an In relay. *)
Definition drives_in (t : list event) : bool :=
  existsb (fun w => snd w && ((fst w =? motorLeftIn) || (fst w =? motorRightIn)))
    (writes t).

(** The number of ticks of a run on which the motor is driven In, counted
    until the pending correction is over. *)
Fixpoint drive_ticks (s : state) (ins : list inputs) : nat :=
  match ins with
  | [] => 0%nat
  | i :: ins' =>
      if correcting s then
        ((if drives_in (tick_trace s i) then 1 else 0)
         + drive_ticks (step s i) ins')%nat
      else 0%nat
  end.

(** The tick that begins a correction: no fault, no debounce pending, no
    correction pending, one limit switch closed. *)
Definition starts_correction (s : state) (i : inputs) : bool :=
  negb (fault s) && negb (trips_fault i) && negb (truthy (delay_next s))
  && negb (correcting s) && (sw_left i || sw_right i).

(** ** Input snapshots used in the examples *)

Definition released : inputs := switches false false false false.
Definition down_held : inputs := switches false true false false.
Definition up_held : inputs := switches true false false false.
Definition up_and_down : inputs := switches true true false false.
Definition both_limits : inputs := switches false false true true.
Definition down_left : inputs := switches false true true false.

(** ** States used in the examples *)

(** The state in which the examples start a correction: booted with all
    switches released, start-up debounce over. *)
Definition settled : state := run (boot released) (repeat released 10).

(** Both motors running In under the down switch, debounce over. *)
Definition lowering : state :=
  run (boot released) (repeat released 10 ++ repeat down_held 12).

(** The state sixteen ticks into a left correction: the start tick, ten
    debounce ticks, five ticks of driving the left motor In. *)
Definition mid_left_correction : state :=
  run (boot released) (repeat released 10 ++ repeat down_left 16).

(** The down switch was held long enough to run both motors In and is
    released: the tick that sees the release arms the debounce counter and
    writes no pin, so both In relays are still energised. *)
Definition just_released : state :=
  run (boot released)
    (repeat released 10 ++ repeat down_held 12 ++ [released]).

(** A tick that does not trip the latch through the switch tests. *)
Definition no_trip (i : inputs) : bool := negb (trips_fault i).

(** ** Relay lines, runs and their traces *)

(** The four relay lines of the port as the motors see them. *)
Definition port_both_in : port := mkPort true false true false.
Definition port_both_out : port := mkPort false true false true.
Definition port_left_in : port := mkPort true false false false.
Definition port_right_in : port := mkPort false false true false.

(** No motor has both of its relay lines HIGH. *)
Definition exclusive (p : port) : bool :=
  negb (pinLeftIn p && pinLeftOut p) && negb (pinRightIn p && pinRightOut p).

(** The port after the pin writes of a trace, applied in order, and the
    ports it passes through, one per event. *)
Definition port_after (p : port) (t : list event) : port :=
  fold_left (fun q w => write_pin (fst w) (snd w) q) (writes t) p.

Fixpoint ports_during (p : port) (t : list event) : list port :=
  match t with
  | [] => []
  | e :: t' => port_after p [e] :: ports_during (port_after p [e]) t'
  end.

(** Everything a run does to the outside world, tick after tick. *)
Fixpoint run_trace (s : state) (ins : list inputs) : list event :=
  match ins with
  | [] => []
  | i :: ins' => tick_trace s i ++ run_trace (step s i) ins'
  end.

(** Something is on record that lets a tick energise a relay once the
    debounce counter is at zero: a pending correction, or a manual switch
    recorded as pressed. *)
Definition armed (s : state) : bool :=
  correcting s || prev_up s || prev_down s.

(** A lower bound on the number of ticks that cannot energise a relay. *)
Definition quiet_ticks (s : state) : Z :=
  delay_next s + (if armed s then 0 else 11).

(** The five settings of the relay lines the sketch produces. *)
Definition port_shape (p : port) : Prop :=
  p = port_off \/ p = port_both_in \/ p = port_both_out \/
  p = port_left_in \/ p = port_right_in.


(** A manual switch is pressed. *)
Definition pressed (i : inputs) : bool := sw_up i || sw_down i.

(** The number of ticks of a run on which a manual switch is pressed. *)
Definition count_pressed (ins : list inputs) : nat :=
  length (filter pressed ins).

(** Ten ticks of debounce, then the down switch pressed for five ticks,
    released for two thousand, pressed again for five, the left limit
    switch closed throughout. *)
Definition stop_and_go : list inputs :=
  repeat down_left 15 ++ repeat (switches false false true false) 2000
  ++ repeat down_left 5.

#[global] Arguments int_dec : simpl never.
#[global] Arguments truthy : simpl never.

(** * Properties *)

(** ** Machine integers *)

Lemma truthy_true (x : Z) : truthy x = true <-> x <> 0.
Proof.
  unfold truthy. destruct (Z.eqb_spec x 0); cbn; split; intros; congruence.
Qed.

Lemma truthy_false (x : Z) : truthy x = false <-> x = 0.
Proof.
  unfold truthy. destruct (Z.eqb_spec x 0); cbn; split; intros; congruence.
Qed.

Lemma int_dec_exact (x : Z) : INT_MIN < x <= INT_MAX -> int_dec x = x - 1.
Proof.
  unfold int_dec, int_wrap, INT_MIN, INT_MAX. intros H.
  rewrite Z.mod_small; lia.
Qed.

(** ** One equation per branch of [loop]

    Each lemma takes the guards that lead to one [return] of the sketch and
    gives the globals and the trace of that tick. *)

Lemma set_motor_state_run (motors dir : Z) (s : state) :
  set_motor_state motors dir s =
    (tt, set_pins (motor_port motors dir) s, motor_events motors dir).
Proof.
  unfold motor_port, motor_events, exec, trace_of, set_motor_state.
  destruct (truthy (Z.land motors LEFT_MOTOR)),
           (truthy (Z.land motors RIGHT_MOTOR)); reflexivity.
Qed.

(** Evaluate one tick: reduce everything but the integer tests, and decide
    those from the hypotheses. *)
Ltac tick_eval :=
  repeat first
    [ progress (lazy -[truthy int_dec set_motor_state motor_port motor_events])
    | rewrite set_motor_state_run
    | match goal with
      | H : ?c = true |- context [?c] => rewrite H
      | H : ?c = false |- context [?c] => rewrite H
      end ].

Ltac destruct_tick s i :=
  destruct s as [f ft fd ls rs us ds pu pd nl nr dn p], i as [lu ld ll lr];
  unfold trips_fault, correcting, transition, sw_left, sw_right, sw_up,
    sw_down in *;
  cbn [fault fix_timer fix_direction left_switch right_switch up_switch
       down_switch prev_up prev_down next_left next_right delay_next pins
       level_up level_down level_left level_right] in *.

Ltac branch_by_inputs lu ld ll lr :=
  destruct lu, ld, ll, lr; try discriminate;
  tick_eval; split; reflexivity.

Lemma loop_fault (s : state) (i : inputs) :
  fault s || trips_fault i = true ->
  step s i = set_fault true (sample i s) /\
  tick_trace s i = [SerialPrint ("fault!" ++ newline); Delay 1000].
Proof.
  destruct_tick s i. intros H.
  destruct f; branch_by_inputs lu ld ll lr.
Qed.

Lemma loop_debounce (s : state) (i : inputs) :
  fault s = false -> trips_fault i = false -> truthy (delay_next s) = true ->
  step s i =
    set_pins port_off (set_delay_next (int_dec (delay_next s)) (sample i s)) /\
  tick_trace s i = off_events ++ [Delay 1].
Proof.
  destruct_tick s i. intros -> H Hd.
  branch_by_inputs lu ld ll lr.
Qed.

Lemma loop_pause (s : state) (i : inputs) :
  fault s = false -> trips_fault i = false -> truthy (delay_next s) = false ->
  correcting s = true -> sw_up i || sw_down i = false ->
  step s i = set_pins port_off (sample i s) /\
  tick_trace s i = off_events.
Proof.
  destruct_tick s i. intros -> H Hd Hc Hm.
  apply andb_true_iff in Hc. destruct Hc as [Hc1 Hc2].
  branch_by_inputs lu ld ll lr.
Qed.

Lemma loop_expire (s : state) (i : inputs) :
  fault s = false -> trips_fault i = false -> truthy (delay_next s) = false ->
  correcting s = true -> sw_up i || sw_down i = true ->
  truthy (int_dec (fix_timer s)) = false ->
  step s i =
    set_fault (sw_left i || sw_right i)
      (set_pins port_off
         (set_fix_direction NO_MOTOR (set_fix_timer 0 (sample i s)))) /\
  tick_trace s i = off_events ++ [Delay 1].
Proof.
  destruct_tick s i. intros -> H Hd Hc Hm Ht.
  apply andb_true_iff in Hc. destruct Hc as [Hc1 Hc2].
  branch_by_inputs lu ld ll lr.
Qed.

Lemma loop_drive (s : state) (i : inputs) :
  fault s = false -> trips_fault i = false -> truthy (delay_next s) = false ->
  correcting s = true -> sw_up i || sw_down i = true ->
  truthy (int_dec (fix_timer s)) = true ->
  step s i =
    set_pins (motor_port (fix_direction s) RUN_IN)
      (set_fix_timer (int_dec (fix_timer s)) (sample i s)) /\
  tick_trace s i = motor_events (fix_direction s) RUN_IN ++ [Delay 1].
Proof.
  destruct_tick s i. intros -> H Hd Hc Hm Ht.
  apply andb_true_iff in Hc. destruct Hc as [Hc1 Hc2].
  branch_by_inputs lu ld ll lr.
Qed.

Lemma loop_fix_left (s : state) (i : inputs) :
  fault s = false -> trips_fault i = false -> truthy (delay_next s) = false ->
  correcting s = false -> sw_left i = true ->
  step s i =
    set_fix_direction LEFT_MOTOR
      (set_fix_timer 750 (set_delay_next 10 (sample i s))) /\
  tick_trace s i = [SerialPrintln "fix left"].
Proof.
  destruct_tick s i. intros -> H Hd Hc Hl.
  destruct (truthy ft) eqn:Hc1, (truthy fd) eqn:Hc2; try discriminate;
    branch_by_inputs lu ld ll lr.
Qed.

Lemma loop_fix_right (s : state) (i : inputs) :
  fault s = false -> trips_fault i = false -> truthy (delay_next s) = false ->
  correcting s = false -> sw_left i = false -> sw_right i = true ->
  step s i =
    set_fix_direction RIGHT_MOTOR
      (set_fix_timer 750 (set_delay_next 10 (sample i s))) /\
  tick_trace s i = [SerialPrintln "fix right"].
Proof.
  destruct_tick s i. intros -> H Hd Hc Hl Hr.
  destruct (truthy ft) eqn:Hc1, (truthy fd) eqn:Hc2; try discriminate;
    branch_by_inputs lu ld ll lr.
Qed.

Lemma loop_transition (s : state) (i : inputs) :
  fault s = false -> trips_fault i = false -> truthy (delay_next s) = false ->
  correcting s = false -> sw_left i || sw_right i = false ->
  transition s i = true ->
  step s i =
    set_delay_next 10
      (set_prev_down (sw_down i) (set_prev_up (sw_up i) (sample i s))) /\
  tick_trace s i = [].
Proof.
  destruct_tick s i. intros -> H Hd Hc Hl Ht.
  destruct (truthy ft) eqn:Hc1, (truthy fd) eqn:Hc2; try discriminate;
    destruct pu, pd; branch_by_inputs lu ld ll lr.
Qed.

Lemma loop_manual (s : state) (i : inputs) :
  fault s = false -> trips_fault i = false -> truthy (delay_next s) = false ->
  correcting s = false -> sw_left i || sw_right i = false ->
  transition s i = false ->
  step s i =
    (if sw_down i then set_pins (motor_port BOTH_MOTOR RUN_IN) (sample i s)
     else if sw_up i then set_pins (motor_port BOTH_MOTOR RUN_OUT) (sample i s)
     else sample i s) /\
  tick_trace s i =
    (if sw_down i then motor_events BOTH_MOTOR RUN_IN ++ [Delay 1]
     else if sw_up i then motor_events BOTH_MOTOR RUN_OUT ++ [Delay 1]
     else []).
Proof.
  destruct_tick s i. intros -> H Hd Hc Hl Ht.
  destruct (truthy ft) eqn:Hc1, (truthy fd) eqn:Hc2; try discriminate;
    destruct pu, pd; branch_by_inputs lu ld ll lr.
Qed.

(** ** [loop] refines its relational reading *)

Lemma tick_view (s : state) (i : inputs) :
  tick_spec s i (step s i) (tick_trace s i).
Proof.
  destruct (fault s || trips_fault i) eqn:Hflt.
  { destruct (loop_fault s i Hflt) as [-> ->]. now constructor. }
  apply orb_false_elim in Hflt. destruct Hflt as [Hf Htrip].
  destruct (truthy (delay_next s)) eqn:Hdn.
  { destruct (loop_debounce s i Hf Htrip Hdn) as [-> ->]. now constructor. }
  destruct (correcting s) eqn:Hcor.
  - destruct (sw_up i || sw_down i) eqn:Hman.
    + destruct (truthy (int_dec (fix_timer s))) eqn:Hexp.
      * destruct (loop_drive s i Hf Htrip Hdn Hcor Hman Hexp) as [-> ->].
        now apply TickDrive.
      * destruct (loop_expire s i Hf Htrip Hdn Hcor Hman Hexp) as [-> ->].
        now apply TickExpire.
    + destruct (loop_pause s i Hf Htrip Hdn Hcor Hman) as [-> ->].
      now apply TickPause.
  - destruct (sw_left i) eqn:Hl.
    { destruct (loop_fix_left s i Hf Htrip Hdn Hcor Hl) as [-> ->].
      now apply TickFixLeft. }
    destruct (sw_right i) eqn:Hr.
    { destruct (loop_fix_right s i Hf Htrip Hdn Hcor Hl Hr) as [-> ->].
      now apply TickFixRight. }
    assert (Hlim : sw_left i || sw_right i = false) by (now rewrite Hl, Hr).
    destruct (transition s i) eqn:Htr.
    + destruct (loop_transition s i Hf Htrip Hdn Hcor Hlim Htr) as [-> ->].
      now apply TickTransition.
    + destruct (loop_manual s i Hf Htrip Hdn Hcor Hlim Htr) as [-> ->].
      now apply TickManual.
Qed.

(** ** Runs *)

Lemma run_app (s : state) (ins more : list inputs) :
  run s (ins ++ more) = run (run s ins) more.
Proof. unfold run. apply fold_left_app. Qed.

Lemma run_cons (s : state) (i : inputs) (ins : list inputs) :
  run s (i :: ins) = run (step s i) ins.
Proof. reflexivity. Qed.

Lemma run_snoc (s : state) (ins : list inputs) (i : inputs) :
  run s (ins ++ [i]) = step (run s ins) i.
Proof. now rewrite run_app. Qed.

(** ** The motor driver *)

Lemma motor_port_exclusive (motors dir : Z) :
  pinLeftIn (motor_port motors dir) && pinLeftOut (motor_port motors dir) = false /\
  pinRightIn (motor_port motors dir) && pinRightOut (motor_port motors dir) = false.
Proof.
  unfold motor_port, exec, set_motor_state.
  destruct (truthy (Z.land motors LEFT_MOTOR)),
           (truthy (Z.land motors RIGHT_MOTOR)); cbn;
    destruct (Z.eqb_spec dir RUN_IN), (Z.eqb_spec dir RUN_OUT); cbn;
    try (split; reflexivity); subst; discriminate.
Qed.

(** ** Reachable states are well formed *)

Lemma boot_eq (i : inputs) : boot i = set_pins port_off (sample i power_on).
Proof. destruct i. reflexivity. Qed.

Lemma boot_well_formed (i : inputs) : well_formed (boot i).
Proof.
  rewrite boot_eq. unfold well_formed. cbn.
  repeat split; try lia. left. split; reflexivity.
Qed.

Lemma sample_eq (i : inputs) (s : state) :
  sample i s =
    set_right_switch (sw_right i)
      (set_left_switch (sw_left i)
         (set_down_switch (sw_down i) (set_up_switch (sw_up i) s))).
Proof. reflexivity. Qed.

Lemma correcting_true (s : state) :
  correcting s = true <-> fix_timer s <> 0 /\ fix_direction s <> 0.
Proof.
  unfold correcting. rewrite andb_true_iff, !truthy_true. reflexivity.
Qed.

Lemma correcting_false (s : state) :
  correcting s = false <-> fix_timer s = 0 \/ fix_direction s = 0.
Proof.
  unfold correcting. rewrite andb_false_iff, !truthy_false. reflexivity.
Qed.

(** Project the fields out of the state a tick leaves. *)
Ltac fields :=
  rewrite ?sample_eq in *;
  cbn [fault fix_timer fix_direction left_switch right_switch up_switch
       down_switch prev_up prev_down next_left next_right delay_next pins
       set_fault set_fix_timer set_fix_direction set_left_switch
       set_right_switch set_up_switch set_down_switch set_prev_up
       set_prev_down set_delay_next set_pins
       pinLeftIn pinLeftOut pinRightIn pinRightOut port_off] in *.

(** Read the integer guards of a branch as arithmetic facts. *)
Ltac guards :=
  repeat match goal with
  | H : truthy _ = true |- _ => apply truthy_true in H
  | H : truthy _ = false |- _ => apply truthy_false in H
  | H : correcting _ = true |- _ => apply correcting_true in H; destruct H
  | H : correcting _ = false |- _ => apply correcting_false in H
  | H : fault _ || trips_fault _ = true |- _ => apply orb_true_iff in H
  end.

(** Close a branch of [loop] whose guards contradict the hypotheses. *)
Ltac split_hyps :=
  repeat match goal with
  | H : _ \/ _ |- _ => destruct H
  | H : _ /\ _ |- _ => destruct H
  end.

Ltac off_branch :=
  exfalso; split_hyps;
  unfold NO_MOTOR, LEFT_MOTOR, RIGHT_MOTOR, INT_MIN, INT_MAX in *;
  first
    [ congruence
    | lia
    | repeat match goal with
      | H : sw_left _ || sw_right _ = false |- _ => apply orb_false_elim in H
      | H : sw_up _ || sw_down _ = false |- _ => apply orb_false_elim in H
      end;
      split_hyps; congruence ].

Lemma step_well_formed (s : state) (i : inputs) :
  well_formed s -> well_formed (step s i).
Proof.
  unfold well_formed. intros (Hd & Hc & Hl & Hr).
  pose proof (motor_port_exclusive (fix_direction s) RUN_IN) as [? ?].
  destruct (tick_view s i); try destruct (sw_down i); try destruct (sw_up i);
    fields; guards;
    try rewrite int_dec_exact in * by (unfold INT_MIN, INT_MAX; lia);
    unfold NO_MOTOR, LEFT_MOTOR, RIGHT_MOTOR in *;
    repeat split; try assumption; try reflexivity; try lia.
Qed.

Lemma reachable_well_formed (s : state) : reachable s -> well_formed s.
Proof.
  intros (i0 & ins & ->).
  induction ins as [|i ins IH] using rev_ind.
  - apply boot_well_formed.
  - rewrite run_snoc. now apply step_well_formed.
Qed.

Lemma reachable_step (s : state) (i : inputs) :
  reachable s -> reachable (step s i).
Proof.
  intros (i0 & ins & ->). exists i0, (ins ++ [i]). now rewrite run_snoc.
Qed.

(** ** C1: the fault latch and the motors *)

(** A tick taken with the latch set, or on which it trips through the
    switch tests, prints the fault line, waits one second and returns: no
    pin is written, so the relay lines stay as the tick found them. *)
Lemma faulted_tick_is_silent (s : state) (i : inputs) :
  fault s || trips_fault i = true ->
  tick_trace s i = [SerialPrint ("fault!" ++ newline); Delay 1000] /\
  writes (tick_trace s i) = [] /\
  pins (step s i) = pins s /\
  fault (step s i) = true.
Proof.
  intros H. destruct (loop_fault s i H) as [-> ->]. fields.
  repeat split; reflexivity.
Qed.

(** C1 (the sketch departs from it).  The chair is lowered by hand: after
    the start-up debounce, the down switch is held for twelve ticks, which
    energises both In relays.  Both limit switches then close.  The latch
    trips, and the tick writes no pin: both In relays stay energised on
    that tick and on every later one, here with all switches released.
    The tick that trips the latch after a correction has run out of
    budget does write Off first. *)
Theorem fault_leaves_relays_energised :
  let s := run (boot released) (repeat released 10 ++ repeat down_held 12) in
  let s1 := step s both_limits in
  fault s = false /\
  pins s = mkPort true false true false /\
  fault s1 = true /\
  tick_trace s both_limits = [SerialPrint ("fault!" ++ newline); Delay 1000] /\
  writes (tick_trace s both_limits) <> motor_writes BOTH_MOTOR RUN_OFF /\
  pins s1 = mkPort true false true false /\
  writes (tick_trace s1 released) = [] /\
  pins (run s1 (repeat released 100)) = mkPort true false true false.
Proof.
  vm_compute. repeat split; try reflexivity. discriminate.
Qed.

(** The other way into the fault state does switch the motors off: the
    tick on which a correction runs out of budget with the limit switch
    still closed writes Off to both motors before it sets the latch. *)
Example timeout_fault_switches_off :
  let s := run (step settled down_left) (repeat down_left 759) in
  fault s = false /\
  pins s = mkPort true false false false /\
  writes (tick_trace s down_left) = motor_writes BOTH_MOTOR RUN_OFF /\
  pins (step s down_left) = port_off /\
  fault (step s down_left) = true.
Proof.
  vm_compute. repeat split; reflexivity.
Qed.

(** ** C2: the latch is never reset *)

Lemma fault_step (s : state) (i : inputs) :
  fault s = true -> fault (step s i) = true.
Proof.
  intros H. apply faulted_tick_is_silent. now rewrite H.
Qed.

Lemma fault_run (s : state) (ins : list inputs) :
  fault s = true -> fault (run s ins) = true.
Proof.
  revert s. induction ins as [|i ins IH]; intros s H.
  - exact H.
  - rewrite run_cons. apply IH. now apply fault_step.
Qed.

(** C2.  Once [fault] is true after some prefix of a run, it is true after
    every longer prefix, whatever the switches do. *)
Theorem fault_latch_monotonic (s : state) (ins more : list inputs) :
  fault (run s ins) = true -> fault (run s (ins ++ more)) = true.
Proof.
  intros H. rewrite run_app. now apply fault_run.
Qed.

Lemma fault_latch_monotonic_witness :
  fault (run (boot released) [released; both_limits]) = true /\
  fault (run (boot released)
           ([released; both_limits] ++ [released; down_held; up_held])) = true.
Proof.
  split.
  - reflexivity.
  - apply (fault_latch_monotonic (boot released) [released; both_limits]
             [released; down_held; up_held]).
    reflexivity.
Defined.

(** ** C3: what a cleared limit switch does to a running correction *)

Ltac by_eval := vm_compute; intuition congruence.

Lemma held_spec (i : inputs) :
  held i = true -> trips_fault i = false /\ sw_up i || sw_down i = true.
Proof.
  unfold held, trips_fault.
  destruct (sw_up i), (sw_down i), (sw_left i), (sw_right i); cbn;
    intros H; try discriminate H; split; reflexivity.
Qed.

(** C3 as stated fails.  Five ticks into a left correction (745 of the 750
    ticks left) the left limit switch opens while the down switch is still
    held: the tick commands the left motor In again, the In relay stays
    energised and the correction goes on with 744 ticks left. *)
Lemma cleared_limit_keeps_correcting :
  let s := mid_left_correction in
  let s' := step s down_held in
  (fault s = false /\ delay_next s = 0 /\ fix_direction s = LEFT_MOTOR /\
   fix_timer s = 745 /\ sw_left down_held = false) /\
  writes (tick_trace s down_held) = motor_writes LEFT_MOTOR RUN_IN /\
  pins s' = mkPort true false false false /\
  fix_timer s' = 744 /\ fix_direction s' = LEFT_MOTOR /\
  correcting s' = true.
Proof.
  vm_compute. repeat split; reflexivity.
Qed.

(** C3, amended.  While a left correction is pending and a manual switch
    is pressed, the limit switches are read only on the tick that uses up
    the budget.  Before that tick the left motor is commanded In and the
    timer is decremented, whether the left limit switch has opened or not.
    On that tick both motors are commanded Off, the correction state is
    cleared, and the latch trips exactly when a limit switch is closed. *)
Theorem left_correction_reads_limits_at_expiry (s : state) (i : inputs) :
  fault s = false -> trips_fault i = false -> delay_next s = 0 ->
  fix_direction s = LEFT_MOTOR -> 0 < fix_timer s <= INT_MAX ->
  sw_up i || sw_down i = true ->
  (1 < fix_timer s ->
   writes (tick_trace s i) = motor_writes LEFT_MOTOR RUN_IN /\
   pins (step s i) = mkPort true false false false /\
   fix_timer (step s i) = fix_timer s - 1 /\
   fix_direction (step s i) = LEFT_MOTOR /\
   fault (step s i) = false) /\
  (fix_timer s = 1 ->
   writes (tick_trace s i) = motor_writes BOTH_MOTOR RUN_OFF /\
   pins (step s i) = port_off /\
   fix_timer (step s i) = 0 /\
   fix_direction (step s i) = NO_MOTOR /\
   fault (step s i) = sw_left i || sw_right i).
Proof.
  intros Hf Htrip Hdn Hdir Hft Hman.
  assert (Hdec : int_dec (fix_timer s) = fix_timer s - 1)
    by (apply int_dec_exact; unfold INT_MIN; lia).
  destruct (tick_view s i); guards; fields; rewrite ?Hdec in *;
    try solve [off_branch].
  - (* the budget is used up on this tick *)
    split; intros; [lia|]. repeat split; reflexivity.
  - (* budget left: drive on *)
    split; intros; [|lia]. rewrite Hdir. repeat split; try reflexivity.
    assumption.
Qed.

Lemma left_correction_reads_limits_at_expiry_witness :
  let s := mid_left_correction in
  let i := down_held in
  (1 < fix_timer s ->
   writes (tick_trace s i) = motor_writes LEFT_MOTOR RUN_IN /\
   pins (step s i) = mkPort true false false false /\
   fix_timer (step s i) = fix_timer s - 1 /\
   fix_direction (step s i) = LEFT_MOTOR /\
   fault (step s i) = false) /\
  (fix_timer s = 1 ->
   writes (tick_trace s i) = motor_writes BOTH_MOTOR RUN_OFF /\
   pins (step s i) = port_off /\
   fix_timer (step s i) = 0 /\
   fix_direction (step s i) = NO_MOTOR /\
   fault (step s i) = sw_left i || sw_right i).
Proof.
  apply (left_correction_reads_limits_at_expiry mid_left_correction down_held);
    by_eval.
Defined.


(** ** C4: how long a correction lasts *)

(** While the debounce counter is at least the number of ticks taken, and
    no tick trips the latch, each tick only counts it down. *)
Lemma debounce_phase (ins : list inputs) (s : state) :
  fault s = false -> forallb no_trip ins = true ->
  Z.of_nat (length ins) <= delay_next s <= INT_MAX ->
  fault (run s ins) = false /\
  delay_next (run s ins) = delay_next s - Z.of_nat (length ins) /\
  fix_timer (run s ins) = fix_timer s /\
  fix_direction (run s ins) = fix_direction s.
Proof.
  revert s. induction ins as [|i ins IH]; intros s Hf Hall Hdn.
  - cbn. repeat split; try assumption; lia.
  - cbn [forallb] in Hall. apply andb_true_iff in Hall.
    destruct Hall as [Hi Hall]. apply negb_true_iff in Hi.
    cbn [length] in Hdn. rewrite Nat2Z.inj_succ in Hdn.
    assert (Hdec : int_dec (delay_next s) = delay_next s - 1)
      by (apply int_dec_exact; unfold INT_MIN; lia).
    rewrite run_cons.
    destruct (IH (step s i)) as (Hf' & Hd' & Ht' & Hdir'); try assumption.
    + destruct (tick_view s i); guards; fields; try solve [off_branch].
      assumption.
    + destruct (tick_view s i); guards; fields; try solve [off_branch].
      rewrite Hdec. unfold INT_MAX in *. lia.
    + rewrite Hf', Hd', Ht', Hdir'. cbn [length]. rewrite Nat2Z.inj_succ.
      destruct (tick_view s i); guards; fields; try solve [off_branch].
      rewrite Hdec. repeat split; try reflexivity. lia.
Qed.

(** With the debounce counter at zero and a manual switch held on every
    tick, each tick takes one off the correction timer, as long as the
    timer does not reach zero. *)
Lemma correction_phase (ins : list inputs) (s : state) :
  fault s = false -> forallb held ins = true -> delay_next s = 0 ->
  fix_direction s <> 0 ->
  Z.of_nat (length ins) < fix_timer s <= INT_MAX ->
  fault (run s ins) = false /\
  delay_next (run s ins) = 0 /\
  fix_timer (run s ins) = fix_timer s - Z.of_nat (length ins) /\
  fix_direction (run s ins) = fix_direction s.
Proof.
  revert s. induction ins as [|i ins IH]; intros s Hf Hall Hdn Hdir Hft.
  - cbn. repeat split; try assumption; lia.
  - cbn [forallb] in Hall. apply andb_true_iff in Hall.
    destruct Hall as [Hi Hall]. apply held_spec in Hi. destruct Hi as [Hi Hm].
    cbn [length] in Hft. rewrite Nat2Z.inj_succ in Hft.
    assert (Hdec : int_dec (fix_timer s) = fix_timer s - 1)
      by (apply int_dec_exact; unfold INT_MIN; lia).
    rewrite run_cons.
    destruct (IH (step s i)) as (Hf' & Hd' & Ht' & Hdir'); try assumption.
    + destruct (tick_view s i); guards; fields; rewrite ?Hdec in *;
        try solve [off_branch]. assumption.
    + destruct (tick_view s i); guards; fields; rewrite ?Hdec in *;
        try solve [off_branch]. assumption.
    + destruct (tick_view s i); guards; fields; rewrite ?Hdec in *;
        try solve [off_branch]. assumption.
    + destruct (tick_view s i); guards; fields; rewrite ?Hdec in *;
        try solve [off_branch]. unfold INT_MAX in *. lia.
    + rewrite Hf', Hd', Ht', Hdir'. cbn [length]. rewrite Nat2Z.inj_succ.
      destruct (tick_view s i); guards; fields; rewrite ?Hdec in *;
        try solve [off_branch].
      repeat split; try reflexivity. lia.
Qed.

(** The tick that takes the timer from one to zero ends the correction. *)
Lemma expiry_tick (s : state) (i : inputs) :
  fault s = false -> held i = true -> delay_next s = 0 ->
  fix_direction s <> 0 -> fix_timer s = 1 ->
  fix_timer (step s i) = 0 /\ fix_direction (step s i) = NO_MOTOR /\
  pins (step s i) = port_off /\
  fault (step s i) = sw_left i || sw_right i.
Proof.
  intros Hf Hi Hdn Hdir Hft. apply held_spec in Hi. destruct Hi as [Hi Hm].
  assert (Hdec : int_dec (fix_timer s) = 0) by (now rewrite Hft).
  destruct (tick_view s i); guards; fields; rewrite ?Hdec in *;
    try solve [off_branch].
  repeat split; reflexivity.
Qed.

Lemma held_no_trip (ins : list inputs) :
  forallb held ins = true -> forallb no_trip ins = true.
Proof.
  induction ins as [|i ins IH]; cbn; [reflexivity|].
  intros H. apply andb_true_iff in H. destruct H as [Hi H].
  apply held_spec in Hi. destruct Hi as [Hi _].
  unfold no_trip at 1. rewrite Hi. cbn. now apply IH.
Qed.

Lemma forallb_firstn {A : Type} (p : A -> bool) (n : nat) (l : list A) :
  forallb p l = true -> forallb p (firstn n l) = true.
Proof.
  intros H. rewrite <- (firstn_skipn n l), forallb_app in H.
  now apply andb_true_iff in H.
Qed.

Lemma forallb_skipn {A : Type} (p : A -> bool) (n : nat) (l : list A) :
  forallb p l = true -> forallb p (skipn n l) = true.
Proof.
  intros H. rewrite <- (firstn_skipn n l), forallb_app in H.
  now apply andb_true_iff in H.
Qed.

(** What the start tick leaves. *)
Lemma start_tick (s : state) (i : inputs) :
  starts_correction s i = true ->
  fault (step s i) = false /\ delay_next (step s i) = 10 /\
  fix_timer (step s i) = 750 /\
  (fix_direction (step s i) = LEFT_MOTOR \/
   fix_direction (step s i) = RIGHT_MOTOR) /\
  writes (tick_trace s i) = [] /\ pins (step s i) = pins s.
Proof.
  unfold starts_correction. rewrite !andb_true_iff, !negb_true_iff.
  intros ((((Hf & Htrip) & Hdn) & Hcor) & Hlim).
  destruct (tick_view s i); fields; try congruence.
  - rewrite Hf, Htrip in *. discriminate.
  - repeat split; auto.
  - repeat split; auto.
Qed.

(** After the start tick: ten debounce ticks, then the timer counts the
    held ticks. *)
Lemma held_run (s : state) (ins : list inputs) :
  fault s = false -> delay_next s = 10 -> fix_timer s = 750 ->
  fix_direction s <> 0 -> forallb held ins = true ->
  (10 <= length ins < 760)%nat ->
  fault (run s ins) = false /\ delay_next (run s ins) = 0 /\
  fix_timer (run s ins) = 760 - Z.of_nat (length ins) /\
  fix_direction (run s ins) = fix_direction s.
Proof.
  intros Hf Hdn Hft Hdir Hall Hlen.
  rewrite <- (firstn_skipn 10 ins), run_app.
  assert (Hl1 : length (firstn 10 ins) = 10%nat)
    by (rewrite length_firstn; lia).
  assert (Hl2 : length (skipn 10 ins) = (length ins - 10)%nat)
    by apply length_skipn.
  destruct (debounce_phase (firstn 10 ins) s) as (Hf1 & Hd1 & Ht1 & Hdir1).
  { assumption. }
  { apply held_no_trip. now apply forallb_firstn. }
  { rewrite Hl1, Hdn. unfold INT_MAX. lia. }
  rewrite Hl1, Hdn in Hd1.
  destruct (correction_phase (skipn 10 ins) (run s (firstn 10 ins)))
    as (Hf2 & Hd2 & Ht2 & Hdir2).
  { assumption. }
  { now apply forallb_skipn. }
  { lia. }
  { congruence. }
  { rewrite Hl2, Ht1, Hft. unfold INT_MAX. lia. }
  rewrite Hf2, Hd2, Ht2, Hdir2, Hl2, Ht1, Hft, Hdir1.
  rewrite length_app, Hl1, Hl2. repeat split; try reflexivity. lia.
Qed.

Lemma short_run_pending (s : state) (ins : list inputs) :
  fault s = false -> delay_next s = 10 -> fix_timer s = 750 ->
  fix_direction s <> 0 -> forallb held ins = true ->
  (length ins < 760)%nat ->
  fault (run s ins) = false /\ correcting (run s ins) = true.
Proof.
  intros Hf Hdn Hft Hdir Hall Hlen.
  destruct (Nat.le_gt_cases 10 (length ins)) as [Hge|Hlt].
  - destruct (held_run s ins) as (Hf' & _ & Ht' & Hdir'); try assumption.
    { lia. }
    split; [assumption|]. apply correcting_true. rewrite Ht', Hdir'. lia.
  - destruct (debounce_phase ins s) as (Hf' & _ & Ht' & Hdir').
    { assumption. }
    { now apply held_no_trip. }
    { rewrite Hdn. unfold INT_MAX. lia. }
    split; [assumption|]. apply correcting_true. rewrite Ht', Hdir'. lia.
Qed.

Lemma full_run_idle (s : state) (ins : list inputs) :
  fault s = false -> delay_next s = 10 -> fix_timer s = 750 ->
  fix_direction s <> 0 -> forallb held ins = true ->
  length ins = 760%nat ->
  fix_timer (run s ins) = 0 /\ fix_direction (run s ins) = NO_MOTOR /\
  pins (run s ins) = port_off /\
  fault (run s ins) =
    sw_left (last ins released) || sw_right (last ins released).
Proof.
  intros Hf Hdn Hft Hdir Hall Hlen.
  destruct (exists_last (l := ins)) as (ins' & i & ->).
  { intros ->. discriminate Hlen. }
  rewrite length_app in Hlen. cbn [length] in Hlen.
  rewrite forallb_app in Hall. apply andb_true_iff in Hall.
  destruct Hall as [Hall Hi]. cbn in Hi. rewrite andb_true_r in Hi.
  destruct (held_run s ins') as (Hf' & Hd' & Ht' & Hdir'); try assumption.
  { lia. }
  rewrite run_snoc, last_last.
  destruct (expiry_tick (run s ins') i) as (H1 & H2 & H3 & H4);
    try assumption; try congruence.
  { rewrite Ht'. lia. }
  repeat split; assumption.
Qed.

Lemma idle_no_drive (s : state) (ins : list inputs) :
  fix_timer s = 0 -> drive_ticks s ins = 0%nat.
Proof.
  intros H. destruct ins as [|i ins]; [reflexivity|].
  cbn [drive_ticks]. unfold correcting. rewrite H. reflexivity.
Qed.

Lemma off_events_no_drive : drives_in off_events = false.
Proof. reflexivity. Qed.

(** Every tick that drives takes one off the timer, and the tick that
    brings it to zero does not drive. *)
Lemma drive_ticks_below_timer (ins : list inputs) (s : state) :
  0 < fix_timer s <= INT_MAX ->
  Z.of_nat (drive_ticks s ins) < fix_timer s.
Proof.
  revert s. induction ins as [|i ins IH]; intros s Hft; [cbn; lia|].
  cbn [drive_ticks]. destruct (correcting s) eqn:Hcor; [|cbn; lia].
  assert (Hdec : int_dec (fix_timer s) = fix_timer s - 1)
    by (apply int_dec_exact; unfold INT_MIN; lia).
  destruct (tick_view s i); guards; rewrite ?Hdec in *;
    try solve [off_branch].
  - (* latched *)
    specialize (IH (set_fault true (sample i s))). fields.
    specialize (IH Hft). cbn [drives_in writes existsb].
    cbn [Nat.add]. exact IH.
  - (* debounce *)
    specialize (IH (set_pins port_off
      (set_delay_next (int_dec (delay_next s)) (sample i s)))). fields.
    specialize (IH Hft).
    change (drives_in (off_events ++ [Delay 1])) with false.
    cbn [Nat.add]. exact IH.
  - (* paused *)
    specialize (IH (set_pins port_off (sample i s))). fields.
    specialize (IH Hft). rewrite off_events_no_drive.
    cbn [Nat.add]. exact IH.
  - (* expired *)
    rewrite idle_no_drive by (fields; reflexivity).
    change (drives_in (off_events ++ [Delay 1])) with false. cbn. lia.
  - (* driving *)
    specialize (IH (set_pins (motor_port (fix_direction s) RUN_IN)
      (set_fix_timer (fix_timer s - 1) (sample i s)))). fields.
    assert (Hft' : 0 < fix_timer s - 1 <= INT_MAX) by lia.
    specialize (IH Hft').
    destruct (drives_in _); lia.
Qed.

(** C4 as stated fails.  A left correction starts on tick T with the down
    switch held.  With the switches kept as they are, at tick T+750 the
    left motor is still driven In with ten ticks of budget left and no
    fault; with the switches released instead, the correction is still
    pending after 2000 ticks, its budget untouched. *)
Lemma correction_outlives_750_ticks :
  let s := step settled down_left in
  starts_correction settled down_left = true /\
  (fault (run s (repeat down_left 750)) = false /\
   fix_timer (run s (repeat down_left 750)) = 10 /\
   fix_direction (run s (repeat down_left 750)) = LEFT_MOTOR /\
   pins (run s (repeat down_left 750)) = mkPort true false false false) /\
  (fault (run s (repeat released 2000)) = false /\
   fix_timer (run s (repeat released 2000)) = 750 /\
   fix_direction (run s (repeat released 2000)) = LEFT_MOTOR).
Proof.
  vm_compute. repeat split; reflexivity.
Qed.

(** With the debounce counter at zero and a correction pending, a run
    that does not trip the latch takes one off the timer on every tick
    with a manual switch pressed and nothing on every other tick, as long
    as the timer does not reach zero. *)
Lemma counting_phase (ins : list inputs) (s : state) :
  fault s = false -> forallb no_trip ins = true -> delay_next s = 0 ->
  fix_direction s <> 0 ->
  Z.of_nat (count_pressed ins) < fix_timer s <= INT_MAX ->
  fault (run s ins) = false /\
  delay_next (run s ins) = 0 /\
  fix_timer (run s ins) = fix_timer s - Z.of_nat (count_pressed ins) /\
  fix_direction (run s ins) = fix_direction s.
Proof.
  revert s. induction ins as [|i ins IH]; intros s Hf Hall Hdn Hdir Hft.
  - cbn. repeat split; try assumption; lia.
  - cbn [forallb] in Hall. apply andb_true_iff in Hall.
    destruct Hall as [Hi Hall]. apply negb_true_iff in Hi.
    unfold count_pressed in *. cbn [filter] in *.
    assert (Hdec : int_dec (fix_timer s) = fix_timer s - 1)
      by (apply int_dec_exact; unfold INT_MIN; lia).
    rewrite run_cons.
    destruct (pressed i) eqn:Hp; unfold pressed in Hp.
    + cbn [length] in *. rewrite Nat2Z.inj_succ in *.
      destruct (IH (step s i)) as (Hf' & Hd' & Ht' & Hdir'); try assumption.
      * destruct (tick_view s i); guards; fields; rewrite ?Hdec in *;
          try solve [off_branch]. assumption.
      * destruct (tick_view s i); guards; fields; rewrite ?Hdec in *;
          try solve [off_branch]. assumption.
      * destruct (tick_view s i); guards; fields; rewrite ?Hdec in *;
          try solve [off_branch]. assumption.
      * destruct (tick_view s i); guards; fields; rewrite ?Hdec in *;
          try solve [off_branch]. unfold INT_MAX in *. lia.
      * rewrite Hf', Hd', Ht', Hdir'.
        destruct (tick_view s i); guards; fields; rewrite ?Hdec in *;
          try solve [off_branch].
        repeat split; try reflexivity. lia.
    + destruct (IH (step s i)) as (Hf' & Hd' & Ht' & Hdir'); try assumption.
      * destruct (tick_view s i); guards; fields;
          try solve [off_branch]; try congruence. 
      * destruct (tick_view s i); guards; fields;
          try solve [off_branch]; try congruence.
      * destruct (tick_view s i); guards; fields;
          try solve [off_branch]; try congruence.
      * destruct (tick_view s i); guards; fields;
          try solve [off_branch]; try congruence.
      * rewrite Hf', Hd', Ht', Hdir'.
        destruct (tick_view s i); guards; fields;
          try solve [off_branch]; try congruence.
        repeat split; reflexivity.
Qed.

(** After the start tick: ten debounce ticks, then the timer counts the
    ticks with a manual switch pressed and no others. *)
Lemma budget_after_start (s : state) (ins : list inputs) :
  fault s = false -> delay_next s = 10 -> fix_timer s = 750 ->
  fix_direction s <> 0 -> forallb no_trip ins = true ->
  Z.of_nat (count_pressed (skipn 10 ins)) < 750 ->
  fault (run s ins) = false /\
  fix_direction (run s ins) = fix_direction s /\
  fix_timer (run s ins) = 750 - Z.of_nat (count_pressed (skipn 10 ins)).
Proof.
  intros Hf Hdn Hft Hdir Hall Hcount.
  destruct (Nat.le_gt_cases (length ins) 10) as [Hle|Hgt].
  - rewrite skipn_all2 by exact Hle.
    destruct (debounce_phase ins s) as (Hf' & _ & Ht' & Hdir');
      try assumption.
    { rewrite Hdn. unfold INT_MAX. lia. }
    rewrite Ht', Hft. cbn. repeat split; assumption.
  - rewrite <- (firstn_skipn 10 ins) at 1 2 3. rewrite run_app.
    assert (Hl1 : length (firstn 10 ins) = 10%nat)
      by (rewrite length_firstn; lia).
    destruct (debounce_phase (firstn 10 ins) s) as (Hf1 & Hd1 & Ht1 & Hdir1).
    { assumption. }
    { now apply forallb_firstn. }
    { rewrite Hl1, Hdn. unfold INT_MAX. lia. }
    rewrite Hl1, Hdn in Hd1.
    destruct (counting_phase (skipn 10 ins) (run s (firstn 10 ins)))
      as (Hf2 & _ & Ht2 & Hdir2).
    { assumption. }
    { now apply forallb_skipn. }
    { lia. }
    { congruence. }
    { rewrite Ht1, Hft. unfold INT_MAX. lia. }
    rewrite Ht2, Hdir2, Ht1, Hft, Hdir1. repeat split; auto.
Qed.

(** C4, amended.  The budget of 750 counts the ticks on which the
    correction branch runs with a manual switch held, not the ticks since
    the correction started.  The start tick arms the ten-tick debounce, so
    with exactly one manual switch held on every tick (and never both
    limit switches) the correction is still pending after any number of
    ticks below 760, and after exactly 760 ticks the timer and the motor
    selection are cleared and all relays are off, with the latch set
    exactly when a limit switch is closed on that last tick.  Whatever
    the inputs, the motor is driven In on at most 749 ticks of one
    correction.  A tick with neither manual switch pressed uses no
    budget: in any run that does not trip the latch, the budget left is
    750 less the number of ticks after the ten debounce ticks on which a
    manual switch was pressed, and the motor under correction is
    unchanged, as long as that number is below 750. *)
Theorem correction_budget_counts_held_ticks
    (s : state) (i : inputs) (ins : list inputs) :
  starts_correction s i = true ->
  (forallb held ins = true -> (length ins < 760)%nat ->
   fault (run (step s i) ins) = false /\
   correcting (run (step s i) ins) = true) /\
  (forallb held ins = true -> length ins = 760%nat ->
   correcting (run (step s i) ins) = false /\
   fix_timer (run (step s i) ins) = 0 /\
   fix_direction (run (step s i) ins) = NO_MOTOR /\
   pins (run (step s i) ins) = port_off /\
   fault (run (step s i) ins) =
     sw_left (last ins released) || sw_right (last ins released)) /\
  (drive_ticks (step s i) ins <= 749)%nat /\
  (forallb no_trip ins = true ->
   Z.of_nat (count_pressed (skipn 10 ins)) < 750 ->
   fault (run (step s i) ins) = false /\
   fix_direction (run (step s i) ins) = fix_direction (step s i) /\
   fix_timer (run (step s i) ins) =
     750 - Z.of_nat (count_pressed (skipn 10 ins))).
Proof.
  intros Hstart.
  destruct (start_tick s i Hstart) as (Hf & Hdn & Hft & Hdir & _ & _).
  assert (Hdir' : fix_direction (step s i) <> 0)
    by (unfold LEFT_MOTOR, RIGHT_MOTOR in Hdir; lia).
  split; [|split; [|split]].
  - intros Hall Hlen. now apply short_run_pending.
  - intros Hall Hlen.
    destruct (full_run_idle (step s i) ins) as (H1 & H2 & H3 & H4);
      try assumption.
    repeat split; try assumption.
    apply correcting_false. now left.
  - pose proof (drive_ticks_below_timer ins (step s i)) as H.
    rewrite Hft in H. unfold INT_MAX in H. lia.
  - intros Hall Hcount. now apply budget_after_start.
Qed.

Lemma correction_budget_counts_held_ticks_witness :
  ((correcting (run (step settled down_left) (repeat down_left 760)) = false /\
    fix_timer (run (step settled down_left) (repeat down_left 760)) = 0 /\
    fix_direction (run (step settled down_left) (repeat down_left 760))
      = NO_MOTOR /\
    pins (run (step settled down_left) (repeat down_left 760)) = port_off /\
    fault (run (step settled down_left) (repeat down_left 760)) =
      sw_left (last (repeat down_left 760) released)
      || sw_right (last (repeat down_left 760) released)) /\
   (drive_ticks (step settled down_left) (repeat down_left 760) <= 749)%nat) /\
  (fault (run (step settled down_left) stop_and_go) = false /\
   fix_direction (run (step settled down_left) stop_and_go)
     = fix_direction (step settled down_left) /\
   fix_timer (run (step settled down_left) stop_and_go) =
     750 - Z.of_nat (count_pressed (skipn 10 stop_and_go))).
Proof.
  split.
  - destruct (correction_budget_counts_held_ticks settled down_left
                (repeat down_left 760)) as (_ & H & Hn & _).
    + reflexivity.
    + split; [apply H; reflexivity | exact Hn].
  - destruct (correction_budget_counts_held_ticks settled down_left
                stop_and_go) as (_ & _ & _ & H).
    + reflexivity.
    + apply H; vm_compute; [reflexivity|reflexivity].
Defined.

(** Two thousand ticks with the manual switches released in the middle
    of a correction cost nothing: ten pressed ticks after the debounce
    leave 740 of the 750. *)
Example stop_and_go_budget :
  count_pressed (skipn 10 stop_and_go) = 10%nat /\
  fix_timer (run (step settled down_left) stop_and_go) = 740.
Proof. vm_compute. split; reflexivity. Qed.

(** The bound on the driven ticks is attained. *)
Example drive_ticks_held :
  drive_ticks (step settled down_left) (repeat down_left 760) = 749%nat.
Proof. vm_compute. reflexivity. Qed.

(** ** C5: a pending correction never drives Out *)

Lemma motor_writes_off :
  motor_writes BOTH_MOTOR RUN_OFF =
    [(motorLeftIn, false); (motorLeftOut, false);
     (motorRightIn, false); (motorRightOut, false)].
Proof. reflexivity. Qed.

Lemma motor_writes_left_in :
  motor_writes LEFT_MOTOR RUN_IN =
    [(motorLeftIn, true); (motorLeftOut, false);
     (motorRightIn, false); (motorRightOut, false)].
Proof. reflexivity. Qed.

Lemma motor_writes_right_in :
  motor_writes RIGHT_MOTOR RUN_IN =
    [(motorLeftIn, false); (motorLeftOut, false);
     (motorRightIn, true); (motorRightOut, false)].
Proof. reflexivity. Qed.

Lemma writes_app (t u : list event) : writes (t ++ u) = writes t ++ writes u.
Proof.
  induction t as [|e t IH]; [reflexivity|].
  destruct e; cbn; rewrite IH; reflexivity.
Qed.

(** C5.  On a tick taken with a correction pending, in any reachable
    state and for any switch positions, the pin writes are none at all
    (latched fault), those of Off for both motors (debounce, pause,
    budget used up), or those of In for the motor under correction alone.
    So the only relay line such a tick can energise is the In line of
    that motor; no Out line is energised by any write. *)
Theorem correction_never_commands_out (s : state) (i : inputs) :
  reachable s -> fix_direction s <> NO_MOTOR ->
  (writes (tick_trace s i) = [] \/
   writes (tick_trace s i) = motor_writes BOTH_MOTOR RUN_OFF \/
   writes (tick_trace s i) = motor_writes (fix_direction s) RUN_IN) /\
  (forall pin : Z, In (pin, true) (writes (tick_trace s i)) ->
     (fix_direction s = LEFT_MOTOR /\ pin = motorLeftIn) \/
     (fix_direction s = RIGHT_MOTOR /\ pin = motorRightIn)) /\
  ~ In (motorLeftOut, true) (writes (tick_trace s i)) /\
  ~ In (motorRightOut, true) (writes (tick_trace s i)).
Proof.
  intros Hreach Hdir.
  destruct (reachable_well_formed s Hreach) as (_ & Hpair & _ & _).
  assert (Hcases : writes (tick_trace s i) = [] \/
          writes (tick_trace s i) = motor_writes BOTH_MOTOR RUN_OFF \/
          writes (tick_trace s i) = motor_writes (fix_direction s) RUN_IN).
  { destruct (tick_view s i); guards; try solve [off_branch].
    - left. reflexivity.
    - right. left. reflexivity.
    - right. left. reflexivity.
    - right. left. reflexivity.
    - right. right. unfold motor_writes.
      rewrite writes_app. cbn. apply app_nil_r. }
  split; [exact Hcases|].
  destruct Hpair as [[_ H0]|[_ Hlr]]; [contradiction|].
  destruct Hcases as [-> | [-> | ->]].
  - cbn. intuition.
  - rewrite motor_writes_off. cbn [In]. intuition congruence.
  - destruct Hlr as [-> | ->];
      rewrite ?motor_writes_left_in, ?motor_writes_right_in; cbn [In];
      unfold motorLeftIn, motorLeftOut, motorRightIn, motorRightOut;
      intuition congruence.
Qed.

Lemma correction_never_commands_out_witness :
  (writes (tick_trace mid_left_correction up_held) = [] \/
   writes (tick_trace mid_left_correction up_held)
     = motor_writes BOTH_MOTOR RUN_OFF \/
   writes (tick_trace mid_left_correction up_held)
     = motor_writes (fix_direction mid_left_correction) RUN_IN) /\
  (forall pin : Z,
     In (pin, true) (writes (tick_trace mid_left_correction up_held)) ->
     (fix_direction mid_left_correction = LEFT_MOTOR /\ pin = motorLeftIn) \/
     (fix_direction mid_left_correction = RIGHT_MOTOR /\ pin = motorRightIn)) /\
  ~ In (motorLeftOut, true) (writes (tick_trace mid_left_correction up_held)) /\
  ~ In (motorRightOut, true) (writes (tick_trace mid_left_correction up_held)).
Proof.
  apply (correction_never_commands_out mid_left_correction up_held).
  - exists released, (repeat released 10 ++ repeat down_left 16). reflexivity.
  - vm_compute. discriminate.
Defined.

(** ** C6: the motor driver *)

(** C6.  One call of [set_motor_state] writes each of the four relay pins
    once, in a fixed order, so every line is set by the call whatever it
    was before.  It never writes HIGH to both lines of a motor, and it
    writes LOW to both lines of a motor whose bit is not set in the
    selection mask. *)
Theorem set_motor_state_lines (motors dir : Z) (s : state) :
  let p := pins (exec (set_motor_state motors dir) s) in
  writes (trace_of (set_motor_state motors dir) s) =
    [(motorLeftIn, pinLeftIn p); (motorLeftOut, pinLeftOut p);
     (motorRightIn, pinRightIn p); (motorRightOut, pinRightOut p)] /\
  pinLeftIn p && pinLeftOut p = false /\
  pinRightIn p && pinRightOut p = false /\
  (Z.land motors LEFT_MOTOR = 0 ->
   pinLeftIn p = false /\ pinLeftOut p = false) /\
  (Z.land motors RIGHT_MOTOR = 0 ->
   pinRightIn p = false /\ pinRightOut p = false).
Proof.
  cbv zeta. unfold exec, trace_of. rewrite set_motor_state_run.
  cbn [fst snd set_pins pins].
  destruct (motor_port_exclusive motors dir) as [Hl Hr].
  unfold motor_events, motor_port, exec, trace_of, set_motor_state in *.
  repeat split; try assumption.
  - destruct (truthy (Z.land motors LEFT_MOTOR)),
             (truthy (Z.land motors RIGHT_MOTOR)); reflexivity.
  - rewrite (proj2 (truthy_false _) H).
    destruct (truthy (Z.land motors RIGHT_MOTOR)); reflexivity.
  - rewrite (proj2 (truthy_false _) H).
    destruct (truthy (Z.land motors RIGHT_MOTOR)); reflexivity.
  - rewrite (proj2 (truthy_false _) H).
    destruct (truthy (Z.land motors LEFT_MOTOR)); reflexivity.
  - rewrite (proj2 (truthy_false _) H).
    destruct (truthy (Z.land motors LEFT_MOTOR)); reflexivity.
Qed.

(** ** C7: the debounce window *)

(** C7 as stated fails.  With the debounce counter at ten and both In
    relays still energised, a tick on which both manual switches read
    pressed trips the latch: no pin is written, the relays stay
    energised, and the counter is not decremented. *)
Lemma latch_preempts_debounce :
  let s := just_released in
  let s' := step s up_and_down in
  (fault s = false /\ delay_next s = 10) /\
  writes (tick_trace s up_and_down) = [] /\
  pins s' = mkPort true false true false /\
  delay_next s' = 10 /\
  fault s' = true.
Proof.
  vm_compute. repeat split; reflexivity.
Qed.

(** C7, amended.  On a tick entered with the debounce counter positive
    and not claimed by the fault latch (latch clear, and neither both
    limit switches nor both manual switches closed), the sketch writes Off
    to both motors, takes one off the counter, waits one tick, and does
    nothing else: apart from the sampled switch values no other global
    changes, and nothing is printed. *)
Theorem debounce_tick_forces_off (s : state) (i : inputs) :
  fault s = false -> trips_fault i = false ->
  0 < delay_next s <= INT_MAX ->
  tick_trace s i = motor_events BOTH_MOTOR RUN_OFF ++ [Delay 1] /\
  pins (step s i) = port_off /\
  delay_next (step s i) = delay_next s - 1 /\
  step s i = set_pins port_off (set_delay_next (delay_next s - 1) (sample i s)) /\
  (fault (step s i) = false /\
   fix_timer (step s i) = fix_timer s /\
   fix_direction (step s i) = fix_direction s /\
   prev_up (step s i) = prev_up s /\
   prev_down (step s i) = prev_down s).
Proof.
  intros Hf Htrip Hdn.
  assert (Hdec : int_dec (delay_next s) = delay_next s - 1)
    by (apply int_dec_exact; unfold INT_MIN; lia).
  destruct (tick_view s i); guards; try solve [off_branch].
  rewrite Hdec. fields. repeat split; try reflexivity. assumption.
Qed.

Lemma debounce_tick_forces_off_witness :
  tick_trace just_released down_held
    = motor_events BOTH_MOTOR RUN_OFF ++ [Delay 1] /\
  pins (step just_released down_held) = port_off /\
  delay_next (step just_released down_held) = delay_next just_released - 1 /\
  step just_released down_held =
    set_pins port_off
      (set_delay_next (delay_next just_released - 1)
         (sample down_held just_released)) /\
  (fault (step just_released down_held) = false /\
   fix_timer (step just_released down_held) = fix_timer just_released /\
   fix_direction (step just_released down_held)
     = fix_direction just_released /\
   prev_up (step just_released down_held) = prev_up just_released /\
   prev_down (step just_released down_held) = prev_down just_released).
Proof.
  apply (debounce_tick_forces_off just_released down_held); by_eval.
Defined.

(** ** C8: a correction paused by releasing the manual switches *)

(** C8 as stated fails.  Five ticks into a left correction, with the left
    In relay energised, both manual switches are released on a tick on
    which both limit switches are closed.  The latch trips: no pin is
    written and the left In relay stays energised. *)
Lemma latch_preempts_pause :
  let s := mid_left_correction in
  let s' := step s both_limits in
  (fault s = false /\ 0 < fix_timer s /\ fix_direction s = LEFT_MOTOR /\
   sw_up both_limits = false /\ sw_down both_limits = false) /\
  writes (tick_trace s both_limits) = [] /\
  pins s' = mkPort true false false false /\
  fault s' = true.
Proof.
  vm_compute. repeat split; reflexivity.
Qed.

(** C8, amended.  On a tick with a correction pending, neither manual
    switch pressed and the fault latch neither set nor tripped by both
    limit switches, both motors are written Off and the timer and the
    motor selection are left as they were (in the correction branch
    nothing but the sampled switches and the relay pins changes).  The
    correction is paused: on the next tick with a manual switch pressed
    (debounce over, latch not tripped) the timer goes on from the same
    value. *)
Theorem paused_correction_keeps_its_state (s : state) (i : inputs) :
  fault s = false -> trips_fault i = false ->
  0 <= delay_next s <= INT_MAX ->
  0 < fix_timer s <= INT_MAX -> fix_direction s <> NO_MOTOR ->
  sw_up i = false -> sw_down i = false ->
  writes (tick_trace s i) = motor_writes BOTH_MOTOR RUN_OFF /\
  pins (step s i) = port_off /\
  fix_timer (step s i) = fix_timer s /\
  fix_direction (step s i) = fix_direction s /\
  fault (step s i) = false /\
  (delay_next s = 0 -> step s i = set_pins port_off (sample i s)) /\
  (forall i' : inputs,
     delay_next (step s i) = 0 -> trips_fault i' = false ->
     sw_up i' || sw_down i' = true ->
     fix_timer (step (step s i) i') = fix_timer s - 1).
Proof.
  intros Hf Htrip Hdn Hft Hdir Hu Hd.
  assert (Hm : sw_up i || sw_down i = false) by (now rewrite Hu, Hd).
  assert (Hdec : int_dec (fix_timer s) = fix_timer s - 1)
    by (apply int_dec_exact; unfold INT_MIN; lia).
  assert (Hnow :
    writes (tick_trace s i) = motor_writes BOTH_MOTOR RUN_OFF /\
    pins (step s i) = port_off /\
    fix_timer (step s i) = fix_timer s /\
    fix_direction (step s i) = fix_direction s /\
    fault (step s i) = false /\
    (delay_next s = 0 -> step s i = set_pins port_off (sample i s))).
  { destruct (tick_view s i); guards; fields; try solve [off_branch].
    - repeat split; try reflexivity; try assumption. intros; off_branch.
    - repeat split; try reflexivity; assumption. }
  destruct Hnow as (Hw & Hp & Ht & Hfd & Hf' & Hs).
  repeat split; try assumption.
  intros i' Hdn' Htrip' Hman'.
  rewrite <- Ht in Hdec. rewrite <- Ht.
  destruct (tick_view (step s i) i'); guards; fields;
    try solve [off_branch].
  - congruence.
  - exact Hdec.
Qed.

Lemma paused_correction_keeps_its_state_witness :
  writes (tick_trace mid_left_correction released)
    = motor_writes BOTH_MOTOR RUN_OFF /\
  pins (step mid_left_correction released) = port_off /\
  fix_timer (step mid_left_correction released)
    = fix_timer mid_left_correction /\
  fix_direction (step mid_left_correction released)
    = fix_direction mid_left_correction /\
  fault (step mid_left_correction released) = false /\
  (delay_next mid_left_correction = 0 ->
   step mid_left_correction released
     = set_pins port_off (sample released mid_left_correction)) /\
  (forall i' : inputs,
     delay_next (step mid_left_correction released) = 0 ->
     trips_fault i' = false -> sw_up i' || sw_down i' = true ->
     fix_timer (step (step mid_left_correction released) i')
       = fix_timer mid_left_correction - 1).
Proof.
  apply (paused_correction_keeps_its_state mid_left_correction released);
    by_eval.
Defined.

(** ** C9: manual drive *)

(** C9 as stated fails.  With no fault, no debounce pending and no
    correction pending, the down switch is pressed for the first time.
    The tick sees the change against the recorded switch state, arms the
    debounce counter and returns: no pin is written, both motors stay
    off. *)
Lemma first_press_issues_no_command :
  let s := settled in
  let s' := step s down_held in
  (fault s = false /\ trips_fault down_held = false /\ delay_next s = 0 /\
   correcting s = false /\ sw_down down_held = true) /\
  writes (tick_trace s down_held) = [] /\
  writes (tick_trace s down_held) <> motor_writes BOTH_MOTOR RUN_IN /\
  pins s' = port_off /\
  delay_next s' = 10.
Proof.
  vm_compute. repeat split; try reflexivity. discriminate.
Qed.

(** C9, amended.  On a tick with the latch clear and not tripped, no
    debounce pending and no correction pending: if moreover no limit
    switch is closed and the manual switches read as last recorded, then
    down pressed writes In to both motors, and otherwise up pressed
    writes Out to both motors; if neither manual switch is pressed, no
    pin is written and the relay lines stay as they were. *)
Theorem manual_drive (s : state) (i : inputs) :
  fault s = false -> trips_fault i = false -> delay_next s = 0 ->
  correcting s = false ->
  (sw_left i || sw_right i = false -> transition s i = false ->
   (sw_down i = true ->
    writes (tick_trace s i) = motor_writes BOTH_MOTOR RUN_IN /\
    pins (step s i) = mkPort true false true false) /\
   (sw_down i = false -> sw_up i = true ->
    writes (tick_trace s i) = motor_writes BOTH_MOTOR RUN_OUT /\
    pins (step s i) = mkPort false true false true)) /\
  (sw_down i = false -> sw_up i = false ->
   writes (tick_trace s i) = [] /\ pins (step s i) = pins s).
Proof.
  intros Hf Htrip Hdn Hcor. split.
  - intros Hlim Htr.
    destruct (tick_view s i); guards; try solve [off_branch];
      try congruence.
    split.
    + intros ->. split; reflexivity.
    + intros -> ->. split; reflexivity.
  - intros Hd Hu.
    destruct (tick_view s i); guards; fields; try solve [off_branch];
      try (split; reflexivity).
    rewrite Hd, Hu. split; reflexivity.
Qed.

Lemma manual_drive_witness :
  (sw_left down_held || sw_right down_held = false ->
   transition lowering down_held = false ->
   (sw_down down_held = true ->
    writes (tick_trace lowering down_held) = motor_writes BOTH_MOTOR RUN_IN /\
    pins (step lowering down_held) = mkPort true false true false) /\
   (sw_down down_held = false -> sw_up down_held = true ->
    writes (tick_trace lowering down_held)
      = motor_writes BOTH_MOTOR RUN_OUT /\
    pins (step lowering down_held) = mkPort false true false true)) /\
  (sw_down down_held = false -> sw_up down_held = false ->
   writes (tick_trace lowering down_held) = [] /\
   pins (step lowering down_held) = pins lowering).
Proof.
  apply (manual_drive lowering down_held); by_eval.
Defined.

(** ** C10: the ticks that arm the debounce counter *)

(** C10 as stated fails.  Both motors run In under the down switch when
    the left limit switch closes: the tick starts a correction, arms the
    debounce counter and writes no pin.  On the following tick the right
    limit switch is closed too.  That tick is claimed by the fault latch,
    not by the debounce window: it writes no pin, the debounce counter
    stays at ten, and both In relays are still energised a thousand
    ticks later. *)
Lemma arming_then_trip_leaves_relays_energised :
  let s := step lowering down_left in
  let i' := switches false true true true in
  (fault lowering = false /\ delay_next lowering = 0 /\
   correcting lowering = false /\ sw_left down_left = true /\
   sw_right down_left = false) /\
  (writes (tick_trace lowering down_left) = [] /\
   pins s = port_both_in /\ delay_next s = 10) /\
  writes (tick_trace s i') = [] /\
  writes (tick_trace s i') <> motor_writes BOTH_MOTOR RUN_OFF /\
  pins (step s i') = port_both_in /\
  delay_next (step s i') = 10 /\
  pins (run (step s i') (repeat released 1000)) = port_both_in.
Proof.
  vm_compute. repeat split; try reflexivity. discriminate.
Qed.

(** C10, amended.  The tick that starts a correction (latch clear and not
    tripped, no debounce and no correction pending, a limit switch
    closed) and the tick that sees the manual switches differ from their
    recorded state write no pin: the relay lines stay as the earlier
    ticks left them, and the debounce counter is set to ten.  The
    following tick, when the fault latch does not claim it (neither both
    limit switches nor both manual switches closed), is the first of the
    debounce window and writes Off to both motors. *)
Theorem arming_tick_issues_no_command (s : state) (i i' : inputs) :
  fault s = false -> trips_fault i = false -> delay_next s = 0 ->
  correcting s = false ->
  sw_left i || sw_right i = true \/ transition s i = true ->
  writes (tick_trace s i) = [] /\
  pins (step s i) = pins s /\
  delay_next (step s i) = 10 /\
  fault (step s i) = false /\
  (trips_fault i' = false ->
   writes (tick_trace (step s i) i') = motor_writes BOTH_MOTOR RUN_OFF /\
   pins (step (step s i) i') = port_off /\
   delay_next (step (step s i) i') = 9).
Proof.
  intros Hf Htrip Hdn Hcor Harm.
  assert (Hnow : writes (tick_trace s i) = [] /\ pins (step s i) = pins s /\
                 delay_next (step s i) = 10 /\ fault (step s i) = false).
  { destruct (tick_view s i); guards; fields; try solve [off_branch];
      repeat split; try reflexivity; assumption. }
  destruct Hnow as (Hw & Hp & Hd & Hf').
  split; [exact Hw|]. split; [exact Hp|]. split; [exact Hd|].
  split; [exact Hf'|]. intros Htrip'.
  destruct (tick_view (step s i) i'); guards; fields;
    try solve [off_branch].
  rewrite Hd. repeat split; reflexivity.
Qed.

Lemma arming_tick_issues_no_command_witness :
  writes (tick_trace lowering down_left) = [] /\
  pins (step lowering down_left) = pins lowering /\
  delay_next (step lowering down_left) = 10 /\
  fault (step lowering down_left) = false /\
  (trips_fault down_left = false ->
   writes (tick_trace (step lowering down_left) down_left)
     = motor_writes BOTH_MOTOR RUN_OFF /\
   pins (step (step lowering down_left) down_left) = port_off /\
   delay_next (step (step lowering down_left) down_left) = 9).
Proof.
  apply (arming_tick_issues_no_command lowering down_left down_left);
    by_eval.
Defined.

(** * Further properties of the sketch *)

(** ** The fault state is absorbing *)

Lemma faulted_step (s : state) (i : inputs) :
  fault s = true -> step s i = sample i s.
Proof.
  intros H. destruct (loop_fault s i) as [-> _]; [now rewrite H|].
  destruct s; cbn in H; subst; reflexivity.
Qed.

Lemma faulted_run (s : state) (ins : list inputs) :
  fault s = true ->
  fault (run s ins) = true /\ pins (run s ins) = pins s /\
  fix_timer (run s ins) = fix_timer s /\
  fix_direction (run s ins) = fix_direction s /\
  delay_next (run s ins) = delay_next s /\
  prev_up (run s ins) = prev_up s /\ prev_down (run s ins) = prev_down s /\
  writes (run_trace s ins) = [].
Proof.
  revert s. induction ins as [|i ins IH]; intros s H.
  - cbn. repeat split; try reflexivity. exact H.
  - rewrite run_cons. cbn [run_trace]. rewrite writes_app.
    destruct (faulted_tick_is_silent s i) as (_ & Hw & _ & _);
      [now rewrite H|].
    rewrite Hw. cbn [app].
    assert (Hs : step s i = sample i s) by now apply faulted_step.
    destruct (IH (step s i)) as (H1 & H2 & H3 & H4 & H5 & H6 & H7 & H8).
    { now apply fault_step. }
    rewrite H1, H2, H3, H4, H5, H6, H7, H8, Hs. fields.
    repeat split; reflexivity.
Qed.

(** X2.  The fault state is absorbing.  From a state with the latch set,
    whatever the switches do and for however long, the latch stays set, no
    pin is ever written, the relay lines keep the levels they had, and
    the counters, the motor under correction and the recorded manual
    switches never change.  Only a reset leaves this state. *)
Theorem latched_state_is_frozen (s : state) (ins : list inputs) :
  fault s = true ->
  fault (run s ins) = true /\
  writes (run_trace s ins) = [] /\
  pins (run s ins) = pins s /\
  fix_timer (run s ins) = fix_timer s /\
  fix_direction (run s ins) = fix_direction s /\
  delay_next (run s ins) = delay_next s /\
  prev_up (run s ins) = prev_up s /\
  prev_down (run s ins) = prev_down s.
Proof.
  intros H.
  destruct (faulted_run s ins H) as (H1 & H2 & H3 & H4 & H5 & H6 & H7 & H8).
  repeat split; assumption.
Qed.

Lemma latched_state_is_frozen_witness :
  let s := step mid_left_correction both_limits in
  let ins := [released; down_held; up_held; down_left; released] in
  fault (run s ins) = true /\
  writes (run_trace s ins) = [] /\
  pins (run s ins) = pins s /\
  fix_timer (run s ins) = fix_timer s /\
  fix_direction (run s ins) = fix_direction s /\
  delay_next (run s ins) = delay_next s /\
  prev_up (run s ins) = prev_up s /\
  prev_down (run s ins) = prev_down s.
Proof.
  apply (latched_state_is_frozen (step mid_left_correction both_limits)
           [released; down_held; up_held; down_left; released]).
  reflexivity.
Defined.

(** ** The start-up debounce *)

Lemma off_events_no_high (pin : Z) :
  ~ In (pin, true) (writes (off_events ++ [Delay 1])).
Proof. cbn. intuition congruence. Qed.

Ltac split_ifs :=
  repeat match goal with
  | |- context [if ?b then _ else _] => destruct b
  end.

(** One tick from a state with all relays off and a positive quiet
    bound: nothing is written HIGH, the relays stay off, and the bound
    drops by at most one unless the latch trips. *)
Lemma quiet_step (s : state) (i : inputs) :
  well_formed s -> fault s = false -> pins s = port_off ->
  1 <= quiet_ticks s ->
  (forall pin : Z, ~ In (pin, true) (writes (tick_trace s i))) /\
  pins (step s i) = port_off /\
  (fault (step s i) = true \/ quiet_ticks s - 1 <= quiet_ticks (step s i)).
Proof.
  intros Hwf Hf Hp Hq.
  destruct Hwf as (Hdn & _ & _ & _).
  unfold quiet_ticks, armed in *.
  destruct (tick_view s i); guards; fields.
  - (* the latch trips *)
    repeat split; auto.
  - (* debounce *)
    rewrite int_dec_exact by (unfold INT_MIN, INT_MAX; lia).
    repeat split; auto using off_events_no_high.
    right. unfold correcting. fields. lia.
  - (* pause *)
    exfalso. unfold correcting in Hq.
    rewrite (proj2 (truthy_true _) H2), (proj2 (truthy_true _) H4) in Hq.
    cbn in Hq. lia.
  - exfalso. unfold correcting in Hq.
    rewrite (proj2 (truthy_true _) H2), (proj2 (truthy_true _) H5) in Hq.
    cbn in Hq. lia.
  - exfalso. unfold correcting in Hq.
    rewrite (proj2 (truthy_true _) H2), (proj2 (truthy_true _) H5) in Hq.
    cbn in Hq. lia.
  - (* a left correction starts *)
    repeat split; auto. right. split_ifs; lia.
  - repeat split; auto. right. split_ifs; lia.
  - (* the manual switches changed *)
    repeat split; auto. right. split_ifs; lia.
  - (* manual branch: nothing on record, so nothing pressed *)
    unfold transition in *.
    destruct (correcting s) eqn:Hc, (prev_up s) eqn:Hpu,
             (prev_down s) eqn:Hpd; cbn in Hq; try lia.
    destruct (sw_up i), (sw_down i); try discriminate.
    fields. unfold correcting. fields. rewrite Hpu, Hpd.
    fold (correcting s). rewrite Hc.
    repeat split; auto. right. cbn. lia.
Qed.

Lemma quiet_run (ins : list inputs) (s : state) :
  well_formed s -> pins s = port_off ->
  fault s = true \/ Z.of_nat (length ins) <= quiet_ticks s ->
  (forall pin : Z, ~ In (pin, true) (writes (run_trace s ins))) /\
  pins (run s ins) = port_off.
Proof.
  revert s. induction ins as [|i ins IH]; intros s Hwf Hp Hq.
  - cbn. split; [intros pin []|exact Hp].
  - destruct (fault s) eqn:Hf.
    + destruct (faulted_run s (i :: ins) Hf)
        as (_ & H2 & _ & _ & _ & _ & _ & H8).
      rewrite H8, H2. split; [intros pin []|exact Hp].
    + destruct Hq as [Hq|Hq]; [discriminate|].
      cbn [length] in Hq. rewrite Nat2Z.inj_succ in Hq.
      destruct (quiet_step s i Hwf Hf Hp) as (Hw & Hp' & Hq'); [lia|].
      destruct (IH (step s i)) as (Hw' & Hp'').
      { now apply step_well_formed. }
      { exact Hp'. }
      { destruct Hq' as [Hq'|Hq']; [now left|right; lia]. }
      rewrite run_cons. cbn [run_trace]. rewrite writes_app.
      split; [|exact Hp''].
      intros pin Hin. apply in_app_or in Hin. destruct Hin as [Hin|Hin].
      * exact (Hw pin Hin).
      * exact (Hw' pin Hin).
Qed.

(** X1.  Whatever the switches read when [setup] runs and on the ticks
    after it, no pin is written HIGH and all four relay lines are LOW
    during [setup] and the first 21 calls of [loop]: the start-up
    debounce, the tick that first records a switch or starts a
    correction, and the debounce that tick arms. *)
Theorem quiet_after_power_up (i0 : inputs) (ins : list inputs) :
  (length ins <= 21)%nat ->
  pins (run (boot i0) ins) = port_off /\
  (forall pin : Z, ~ In (pin, true) (writes (run_trace (boot i0) ins))) /\
  (forall pin : Z, ~ In (pin, true) (writes (trace_of (setup i0) power_on))).
Proof.
  intros Hlen.
  destruct (quiet_run ins (boot i0)) as (Hw & Hp).
  - apply boot_well_formed.
  - rewrite boot_eq. reflexivity.
  - right. replace (quiet_ticks (boot i0)) with 21
      by (rewrite boot_eq; reflexivity).
    lia.
  - split; [exact Hp|]. split; [exact Hw|].
    intros pin.
    replace (writes (trace_of (setup i0) power_on))
      with (motor_writes BOTH_MOTOR RUN_OFF) by (destruct i0; reflexivity).
    rewrite motor_writes_off. cbn [In]. intuition congruence.
Qed.

Lemma quiet_after_power_up_witness :
  pins (run (boot down_left) (repeat down_left 21)) = port_off /\
  (forall pin : Z,
     ~ In (pin, true)
         (writes (run_trace (boot down_left) (repeat down_left 21)))) /\
  (forall pin : Z,
     ~ In (pin, true) (writes (trace_of (setup down_left) power_on))).
Proof.
  apply (quiet_after_power_up down_left (repeat down_left 21)).
  cbn. lia.
Defined.

(** The bound of 21 ticks is attained: with the down switch held from
    power-up on, the 22nd tick energises both In relays. *)
Example first_drive_on_tick_22 :
  pins (run (boot down_held) (repeat down_held 21)) = port_off /\
  pins (run (boot down_held) (repeat down_held 22)) = port_both_in.
Proof. vm_compute. split; reflexivity. Qed.

(** ** Invariants of the relay lines and the counters *)

Lemma step_port_shape (s : state) (i : inputs) :
  well_formed s -> port_shape (pins s) -> port_shape (pins (step s i)).
Proof.
  intros (_ & Hpair & _ & _) Hp. unfold port_shape in *.
  destruct (tick_view s i); guards; fields; auto.
  - destruct Hpair as [[Hz _]|[_ [Hfd|Hfd]]].
    + contradiction.
    + rewrite Hfd. right. right. right. left. reflexivity.
    + rewrite Hfd. right. right. right. right. reflexivity.
  - destruct (sw_down i); [|destruct (sw_up i)]; fields.
    + right. left. reflexivity.
    + right. right. left. reflexivity.
    + exact Hp.
Qed.

(** X3.  Between two ticks the relay lines are always in one of five
    settings: all off, both motors In, both motors Out, left motor In
    alone, right motor In alone.  So the two motors are never driven in
    opposite directions, no motor has both of its lines HIGH, and a
    motor is never driven Out alone. *)
Theorem reachable_port_shape (s : state) :
  reachable s ->
  pins s = port_off \/ pins s = port_both_in \/ pins s = port_both_out \/
  pins s = port_left_in \/ pins s = port_right_in.
Proof.
  intros (i0 & ins & ->).
  induction ins as [|i ins IH] using rev_ind.
  - left. rewrite boot_eq. reflexivity.
  - rewrite run_snoc. apply step_port_shape; [|exact IH].
    apply reachable_well_formed. now exists i0, ins.
Qed.

Lemma reachable_port_shape_witness :
  pins mid_left_correction = port_off \/
  pins mid_left_correction = port_both_in \/
  pins mid_left_correction = port_both_out \/
  pins mid_left_correction = port_left_in \/
  pins mid_left_correction = port_right_in.
Proof.
  apply (reachable_port_shape mid_left_correction).
  exists released, (repeat released 10 ++ repeat down_left 16). reflexivity.
Defined.

(** X4.  In every reachable state the debounce counter is between 0 and
    10, the correction timer between 0 and 750, the motor under
    correction is none, left or right, and the timer is zero exactly when
    no motor is under correction.  So neither decrement of [loop] ever
    leaves the range of [int]: it is the mathematical predecessor. *)
Theorem counters_stay_in_range (s : state) :
  reachable s ->
  0 <= delay_next s <= 10 /\
  0 <= fix_timer s <= 750 /\
  (fix_direction s = NO_MOTOR \/ fix_direction s = LEFT_MOTOR \/
   fix_direction s = RIGHT_MOTOR) /\
  (fix_timer s = 0 <-> fix_direction s = NO_MOTOR) /\
  (delay_next s <> 0 ->
   int_dec (delay_next s) = delay_next s - 1 /\ 0 <= int_dec (delay_next s)) /\
  (fix_timer s <> 0 ->
   int_dec (fix_timer s) = fix_timer s - 1 /\ 0 <= int_dec (fix_timer s)).
Proof.
  intros Hr. destruct (reachable_well_formed s Hr) as (Hd & Hpair & _ & _).
  unfold NO_MOTOR, LEFT_MOTOR, RIGHT_MOTOR in *.
  split; [exact Hd|]. split; [lia|]. split; [lia|]. split; [lia|].
  split; intros Hnz; rewrite int_dec_exact by (unfold INT_MIN, INT_MAX; lia);
    lia.
Qed.

Lemma counters_stay_in_range_witness :
  0 <= delay_next just_released <= 10 /\
  0 <= fix_timer just_released <= 750 /\
  (fix_direction just_released = NO_MOTOR \/
   fix_direction just_released = LEFT_MOTOR \/
   fix_direction just_released = RIGHT_MOTOR) /\
  (fix_timer just_released = 0 <-> fix_direction just_released = NO_MOTOR) /\
  (delay_next just_released <> 0 ->
   int_dec (delay_next just_released) = delay_next just_released - 1 /\
   0 <= int_dec (delay_next just_released)) /\
  (fix_timer just_released <> 0 ->
   int_dec (fix_timer just_released) = fix_timer just_released - 1 /\
   0 <= int_dec (fix_timer just_released)).
Proof.
  apply (counters_stay_in_range just_released).
  exists released, (repeat released 10 ++ repeat down_held 12 ++ [released]).
  reflexivity.
Defined.

(** ** What it takes to energise a relay *)

Lemma drive_writes_no_out (motors pin : Z) :
  In (pin, true) (writes (motor_events motors RUN_IN)) ->
  pin = motorLeftIn \/ pin = motorRightIn.
Proof.
  unfold motor_events, trace_of, set_motor_state.
  destruct (truthy (Z.land motors LEFT_MOTOR)),
           (truthy (Z.land motors RIGHT_MOTOR)); cbn;
    intuition congruence.
Qed.

Lemma writes_delay (t : list event) (ms : Z) :
  writes (t ++ [Delay ms]) = writes t.
Proof. rewrite writes_app. cbn. apply app_nil_r. Qed.

Lemma xorb_of_manual (i : inputs) :
  trips_fault i = false -> sw_up i || sw_down i = true ->
  xorb (sw_up i) (sw_down i) = true.
Proof.
  unfold trips_fault.
  destruct (sw_up i), (sw_down i), (sw_left i), (sw_right i); cbn;
    intros; congruence.
Qed.

(** X5.  A tick writes HIGH to a relay pin only if the latch is clear and
    is not tripped by this tick's switches, no debounce is pending, and
    exactly one of the two manual switches is pressed on this very tick.
    With both manual switches released no tick ever energises a relay,
    in any state. *)
Theorem energising_needs_manual_switch (s : state) (i : inputs) (pin : Z) :
  In (pin, true) (writes (tick_trace s i)) ->
  fault s = false /\ trips_fault i = false /\ delay_next s = 0 /\
  xorb (sw_up i) (sw_down i) = true.
Proof.
  intros Hin.
  destruct (tick_view s i) as
    [H|Hf Ht Hd|Hf Ht Hd Hc Hm|Hf Ht Hd Hc Hm He|Hf Ht Hd Hc Hm He
    |Hf Ht Hd Hc Hl|Hf Ht Hd Hc Hl Hr|Hf Ht Hd Hc Hl Htr|Hf Ht Hd Hc Hl Htr].
  - destruct Hin.
  - exfalso. exact (off_events_no_high pin Hin).
  - exfalso. revert Hin. cbn. intuition congruence.
  - exfalso. exact (off_events_no_high pin Hin).
  - apply truthy_false in Hd.
    repeat split; auto using xorb_of_manual.
  - destruct Hin.
  - destruct Hin.
  - destruct Hin.
  - apply truthy_false in Hd. pose proof (xorb_of_manual i Ht) as Hx.
    destruct (sw_down i) eqn:Hdown; [|destruct (sw_up i) eqn:Hup].
    + repeat split; auto. apply Hx. apply orb_true_r.
    + repeat split; auto.
    + destruct Hin.
Qed.

Lemma energising_needs_manual_switch_witness :
  fault lowering = false /\ trips_fault down_held = false /\
  delay_next lowering = 0 /\
  xorb (sw_up down_held) (sw_down down_held) = true.
Proof.
  apply (energising_needs_manual_switch lowering down_held motorLeftIn).
  vm_compute. left. reflexivity.
Defined.

(** X6.  A tick writes HIGH to an Out pin only in the manual branch with
    the up switch pressed: up is pressed and was already on record, down
    is released, no limit switch is closed, no correction is pending, and
    the writes of the tick are those of Out for both motors.  The
    correction branch never raises a motor, whatever [fix_direction]
    holds. *)
Theorem raising_needs_up_switch (s : state) (i : inputs) :
  In (motorLeftOut, true) (writes (tick_trace s i)) \/
  In (motorRightOut, true) (writes (tick_trace s i)) ->
  sw_up i = true /\ sw_down i = false /\
  sw_left i = false /\ sw_right i = false /\
  prev_up s = true /\ prev_down s = false /\
  correcting s = false /\ fault s = false /\ delay_next s = 0 /\
  writes (tick_trace s i) = motor_writes BOTH_MOTOR RUN_OUT.
Proof.
  intros Hin.
  assert (Hany : exists pin, (pin = motorLeftOut \/ pin = motorRightOut) /\
                             In (pin, true) (writes (tick_trace s i))).
  { destruct Hin as [Hin|Hin];
      [exists motorLeftOut|exists motorRightOut]; split; auto. }
  clear Hin. destruct Hany as (pin & Hpin & Hin).
  destruct (tick_view s i) as
    [H|Hf Ht Hd|Hf Ht Hd Hc Hm|Hf Ht Hd Hc Hm He|Hf Ht Hd Hc Hm He
    |Hf Ht Hd Hc Hl|Hf Ht Hd Hc Hl Hr|Hf Ht Hd Hc Hl Htr|Hf Ht Hd Hc Hl Htr].
  - destruct Hin.
  - exfalso. exact (off_events_no_high pin Hin).
  - exfalso. revert Hin. cbn. intuition congruence.
  - exfalso. exact (off_events_no_high pin Hin).
  - exfalso. rewrite writes_delay in Hin.
    apply drive_writes_no_out in Hin.
    unfold motorLeftIn, motorLeftOut, motorRightIn, motorRightOut in *.
    intuition congruence.
  - destruct Hin.
  - destruct Hin.
  - destruct Hin.
  - apply truthy_false in Hd. apply orb_false_elim in Hl.
    destruct Hl as [Hl Hr]. unfold transition, trips_fault in *.
    destruct (sw_down i) eqn:Hdown; [|destruct (sw_up i) eqn:Hup].
    + exfalso. rewrite writes_delay in Hin.
      apply drive_writes_no_out in Hin.
      unfold motorLeftIn, motorLeftOut, motorRightIn, motorRightOut in *.
      intuition congruence.
    + destruct (prev_up s), (prev_down s); try discriminate.
      repeat split; auto.
    + destruct Hin.
Qed.

Lemma raising_needs_up_switch_witness :
  let s := run (boot released) (repeat released 10 ++ repeat up_held 11) in
  sw_up up_held = true /\ sw_down up_held = false /\
  sw_left up_held = false /\ sw_right up_held = false /\
  prev_up s = true /\ prev_down s = false /\
  correcting s = false /\ fault s = false /\ delay_next s = 0 /\
  writes (tick_trace s up_held) = motor_writes BOTH_MOTOR RUN_OUT.
Proof.
  apply (raising_needs_up_switch
           (run (boot released) (repeat released 10 ++ repeat up_held 11))
           up_held).
  vm_compute. left. right. left. reflexivity.
Defined.

(** ** Reversing a motor always passes through Off *)







(** Reversing without the Off tick would overlap: In for both motors
    written over a port with both Out lines HIGH has both lines of the
    left motor HIGH after its first write. *)
Example direct_reversal_would_overlap :
  forallb exclusive
    (ports_during port_both_out (motor_events BOTH_MOTOR RUN_IN)) = false.
Proof. reflexivity. Qed.

(** ** The causes of a fault *)

(** X8.  From a reachable state with the latch clear, a tick sets the
    latch in exactly three cases: both limit switches closed, both manual
    switches pressed, or the tick takes the correction timer from one to
    zero (no debounce pending, a manual switch pressed) while a limit
    switch is closed.  Nothing else sets it. *)
Theorem latch_set_exactly_when (s : state) (i : inputs) :
  reachable s -> fault s = false ->
  fault (step s i) =
    (sw_left i && sw_right i) || (sw_up i && sw_down i)
    || ((delay_next s =? 0) && (fix_timer s =? 1)
        && (sw_up i || sw_down i) && (sw_left i || sw_right i)).
Proof.
  intros Hr Hfs.
  destruct (reachable_well_formed s Hr) as (Hdn & Hpair & _ & _).
  fold (trips_fault i).
  assert (Hdec : fix_timer s <> 0 -> int_dec (fix_timer s) = fix_timer s - 1)
    by (intros; apply int_dec_exact; unfold INT_MIN, INT_MAX; lia).
  destruct (tick_view s i) as
    [H|Hf Ht Hd|Hf Ht Hd Hc Hm|Hf Ht Hd Hc Hm He|Hf Ht Hd Hc Hm He
    |Hf Ht Hd Hc Hl|Hf Ht Hd Hc Hl Hr'|Hf Ht Hd Hc Hl Htr|Hf Ht Hd Hc Hl Htr];
    fields.
  - rewrite Hfs in H. cbn in H. rewrite H. reflexivity.
  - rewrite Ht, Hfs. apply truthy_true in Hd.
    rewrite (proj2 (Z.eqb_neq _ _) Hd). reflexivity.
  - rewrite Ht, Hfs, Hm. cbn. now rewrite andb_false_r.
  - rewrite Ht, Hm. apply truthy_false in Hd, He.
    apply correcting_true in Hc. destruct Hc as [Hc _].
    rewrite Hdec in He by assumption.
    rewrite Hd. replace (fix_timer s) with 1 by lia. reflexivity.
  - rewrite Ht, Hfs. apply truthy_true in He.
    apply correcting_true in Hc. destruct Hc as [Hc _].
    rewrite Hdec in He by assumption.
    replace (fix_timer s =? 1) with false
      by (symmetry; apply Z.eqb_neq; lia).
    now rewrite andb_false_r.
  - rewrite Ht, Hfs. apply correcting_false in Hc.
    replace (fix_timer s =? 1) with false
      by (symmetry; apply Z.eqb_neq; unfold NO_MOTOR, LEFT_MOTOR,
          RIGHT_MOTOR in *; lia).
    now rewrite andb_false_r.
  - rewrite Ht, Hfs. apply correcting_false in Hc.
    replace (fix_timer s =? 1) with false
      by (symmetry; apply Z.eqb_neq; unfold NO_MOTOR, LEFT_MOTOR,
          RIGHT_MOTOR in *; lia).
    now rewrite andb_false_r.
  - rewrite Ht, Hl. cbn. now rewrite andb_false_r.
  - rewrite Ht, Hl. cbn. rewrite andb_false_r.
    destruct (sw_down i); [|destruct (sw_up i)]; fields; exact Hfs.
Qed.

Lemma latch_set_exactly_when_witness :
  let s := run (step settled down_left) (repeat down_left 759) in
  fault (step s down_left) =
    (sw_left down_left && sw_right down_left)
    || (sw_up down_left && sw_down down_left)
    || ((delay_next s =? 0) && (fix_timer s =? 1)
        && (sw_up down_left || sw_down down_left)
        && (sw_left down_left || sw_right down_left)).
Proof.
  apply (latch_set_exactly_when
           (run (step settled down_left) (repeat down_left 759)) down_left).
  - exists released,
      (repeat released 10 ++ [down_left] ++ repeat down_left 759).
    vm_compute. reflexivity.
  - vm_compute. reflexivity.
Defined.

(** ** A pending correction keeps its motor *)

(** X9.  While a correction is pending, a tick either leaves the motor
    under correction as it is, with the timer unchanged or one lower and
    still positive, or it ends the correction (timer from one to zero,
    no motor selected).  A limit switch that closes during a correction,
    on either side, neither restarts the timer nor changes the motor. *)
Theorem pending_correction_keeps_its_motor (s : state) (i : inputs) :
  reachable s -> correcting s = true ->
  (fix_direction (step s i) = fix_direction s /\
   0 < fix_timer (step s i) /\
   fix_timer s - 1 <= fix_timer (step s i) <= fix_timer s) \/
  (fix_direction (step s i) = NO_MOTOR /\ fix_timer (step s i) = 0 /\
   fix_timer s = 1).
Proof.
  intros Hr Hc.
  destruct (reachable_well_formed s Hr) as (_ & Hpair & _ & _).
  assert (Hft : 0 < fix_timer s <= 750).
  { apply correcting_true in Hc. destruct Hpair as [[? ?]|[? _]]; tauto. }
  assert (Hdec : int_dec (fix_timer s) = fix_timer s - 1)
    by (apply int_dec_exact; unfold INT_MIN, INT_MAX; lia).
  destruct (tick_view s i); guards; fields; rewrite ?Hdec in *;
    try solve [off_branch].
  - left. repeat split; lia.
  - left. repeat split; lia.
  - left. repeat split; lia.
  - right. repeat split; try reflexivity; lia.
  - left. repeat split; lia.
Qed.

Lemma pending_correction_keeps_its_motor_witness :
  (fix_direction (step mid_left_correction (switches false true false true))
     = fix_direction mid_left_correction /\
   0 < fix_timer (step mid_left_correction (switches false true false true)) /\
   fix_timer mid_left_correction - 1
     <= fix_timer (step mid_left_correction (switches false true false true))
     <= fix_timer mid_left_correction) \/
  (fix_direction (step mid_left_correction (switches false true false true))
     = NO_MOTOR /\
   fix_timer (step mid_left_correction (switches false true false true)) = 0 /\
   fix_timer mid_left_correction = 1).
Proof.
  apply (pending_correction_keeps_its_motor mid_left_correction
           (switches false true false true)).
  - exists released, (repeat released 10 ++ repeat down_left 16). reflexivity.
  - reflexivity.
Defined.

(** ** The motor driver on unusual arguments *)

(** X10.  [set_motor_state] reads only the two low bits of [motors], and
    any direction other than RUN_IN and RUN_OUT switches the selected
    motors off like RUN_OFF.  The call changes nothing but the four relay
    pins, and its result does not depend on an earlier call: of two calls
    in a row only the second shows. *)
Theorem set_motor_state_decoding (motors dir m0 d0 : Z) (s : state) :
  exec (set_motor_state motors dir) s = set_pins (motor_port motors dir) s /\
  motor_port motors dir = motor_port (Z.land motors 3) dir /\
  (dir <> RUN_IN -> dir <> RUN_OUT -> motor_port motors dir = port_off) /\
  motor_port NO_MOTOR dir = port_off /\
  exec (set_motor_state motors dir) (exec (set_motor_state m0 d0) s)
    = exec (set_motor_state motors dir) s.
Proof.
  assert (Hrun : forall m d t,
            exec (set_motor_state m d) t = set_pins (motor_port m d) t).
  { intros m d t. unfold exec. now rewrite set_motor_state_run. }
  split; [apply Hrun|]. split; [|split; [|split]].
  - unfold motor_port, exec, set_motor_state.
    rewrite <- !Z.land_assoc.
    change (Z.land 3 LEFT_MOTOR) with LEFT_MOTOR.
    change (Z.land 3 RIGHT_MOTOR) with RIGHT_MOTOR. reflexivity.
  - intros Hin Hout. unfold motor_port, exec, set_motor_state.
    rewrite (proj2 (Z.eqb_neq _ _) Hin), (proj2 (Z.eqb_neq _ _) Hout).
    destruct (truthy (Z.land motors LEFT_MOTOR)),
             (truthy (Z.land motors RIGHT_MOTOR)); reflexivity.
  - reflexivity.
  - rewrite !Hrun. reflexivity.
Qed.

(** ** From pressing a switch to a running motor *)

(** The switches kept in one position through a debounce window. *)
Lemma debounce_hold (i : inputs) (k : nat) (s : state) :
  fault s = false -> trips_fault i = false ->
  Z.of_nat (S k) <= delay_next s <= INT_MAX ->
  run s (repeat i (S k)) =
    set_pins port_off
      (set_delay_next (delay_next s - Z.of_nat (S k)) (sample i s)).
Proof.
  revert s. induction k as [|k IH]; intros s Hf Ht Hd.
  - cbn [repeat]. rewrite run_cons. cbn [run fold_left].
    destruct (loop_debounce s i Hf Ht) as [-> _].
    { apply truthy_true. lia. }
    rewrite int_dec_exact by (unfold INT_MIN; lia). reflexivity.
  - change (repeat i (S (S k))) with (i :: repeat i (S k)).
    rewrite run_cons.
    destruct (loop_debounce s i Hf Ht) as [Hs _].
    { apply truthy_true. lia. }
    rewrite int_dec_exact in Hs by (unfold INT_MIN; lia).
    rewrite Hs, IH.
    + fields.
      replace (delay_next s - 1 - Z.of_nat (S k))
        with (delay_next s - Z.of_nat (S (S k))) by lia.
      destruct s. reflexivity.
    + fields. exact Hf.
    + exact Ht.
    + fields. lia.
Qed.

(** X11.  From rest (latch clear, nothing pending, both manual switches
    on record as released) to a running motor takes twelve ticks with one
    manual switch held and no limit switch closed: the first tick records
    the switch, arms the debounce counter and writes nothing, the next
    ten write Off, and the twelfth writes In for both motors if the
    switch is down, Out for both if it is up. *)
Theorem press_to_drive_takes_twelve_ticks (s : state) (i : inputs) :
  fault s = false -> delay_next s = 0 -> correcting s = false ->
  prev_up s = false -> prev_down s = false ->
  xorb (sw_up i) (sw_down i) = true -> sw_left i || sw_right i = false ->
  pins (step s i) = pins s /\
  (forall n : nat, (2 <= n <= 11)%nat ->
     pins (run s (repeat i n)) = port_off) /\
  pins (run s (repeat i 12)) =
    (if sw_down i then port_both_in else port_both_out).
Proof.
  intros Hf Hd Hc Hpu Hpd Hx Hl.
  assert (Ht : trips_fault i = false).
  { unfold trips_fault. apply orb_false_elim in Hl. destruct Hl as [-> _].
    destruct (sw_up i), (sw_down i); try discriminate; reflexivity. }
  assert (Htr : transition s i = true).
  { unfold transition. rewrite Hpu, Hpd.
    destruct (sw_up i), (sw_down i); try discriminate; reflexivity. }
  destruct (loop_transition s i Hf Ht) as [Hs _]; try assumption.
  { now apply truthy_false. }
  assert (Hrun : forall k : nat, (k <= 9)%nat ->
            run s (repeat i (S (S k))) =
              set_pins port_off
                (set_delay_next (10 - Z.of_nat (S k)) (sample i (step s i)))).
  { intros k Hk. change (repeat i (S (S k))) with (i :: repeat i (S k)).
    rewrite run_cons, debounce_hold; rewrite ?Hs; fields; auto.
    unfold INT_MAX. lia. }
  split; [rewrite Hs; fields; reflexivity|]. split.
  - intros n Hn. destruct n as [|[|k]]; try lia.
    rewrite Hrun by lia. reflexivity.
  - change (repeat i 12) with (repeat i 11 ++ [i]).
    rewrite run_snoc, (Hrun 9%nat) by lia.
    set (t := set_pins port_off
                (set_delay_next (10 - Z.of_nat 10) (sample i (step s i)))).
    assert (Hft : fault t = false) by (subst t; rewrite Hs; fields; exact Hf).
    assert (Hdt : truthy (delay_next t) = false) by (subst t; reflexivity).
    assert (Hct : correcting t = false)
      by (subst t; rewrite Hs; unfold correcting in *; fields; exact Hc).
    assert (Htt : transition t i = false).
    { subst t. rewrite Hs. unfold transition. fields.
      destruct (sw_up i), (sw_down i); reflexivity. }
    destruct (loop_manual t i Hft Ht Hdt Hct Hl Htt) as [-> _].
    destruct (sw_down i) eqn:Hdown; [reflexivity|].
    destruct (sw_up i); [reflexivity|discriminate].
Qed.

Lemma press_to_drive_takes_twelve_ticks_witness :
  pins (step settled up_held) = pins settled /\
  (forall n : nat, (2 <= n <= 11)%nat ->
     pins (run settled (repeat up_held n)) = port_off) /\
  pins (run settled (repeat up_held 12)) =
    (if sw_down up_held then port_both_in else port_both_out).
Proof.
  apply (press_to_drive_takes_twelve_ticks settled up_held); reflexivity.
Defined.

(** X12.  Once a motor runs under a manual switch (the switch on record,
    nothing pending, latch clear), it keeps running for as long as the
    switches stay as they are with no limit switch closed: every further
    tick writes the same command again and changes no counter, so no
    debounce or correction interrupts a steady press. *)
Theorem steady_press_keeps_driving (s : state) (i : inputs) (n : nat) :
  fault s = false -> delay_next s = 0 -> correcting s = false ->
  xorb (sw_up i) (sw_down i) = true -> sw_left i || sw_right i = false ->
  prev_up s = sw_up i -> prev_down s = sw_down i ->
  pins (run s (repeat i (S n))) =
    (if sw_down i then port_both_in else port_both_out) /\
  fault (run s (repeat i (S n))) = false /\
  delay_next (run s (repeat i (S n))) = 0 /\
  fix_timer (run s (repeat i (S n))) = fix_timer s /\
  fix_direction (run s (repeat i (S n))) = fix_direction s.
Proof.
  intros Hf Hd Hc Hx Hl Hpu Hpd.
  assert (Ht : trips_fault i = false).
  { unfold trips_fault. apply orb_false_elim in Hl. destruct Hl as [-> _].
    destruct (sw_up i), (sw_down i); try discriminate; reflexivity. }
  assert (Hstep : forall t : state,
            fault t = false -> delay_next t = 0 -> correcting t = false ->
            prev_up t = sw_up i -> prev_down t = sw_down i ->
            step t i =
              set_pins (if sw_down i then port_both_in else port_both_out)
                (sample i t)).
  { intros t Hf' Hd' Hc' Hpu' Hpd'.
    destruct (loop_manual t i Hf' Ht) as [-> _]; try assumption.
    - now apply truthy_false.
    - unfold transition. rewrite Hpu', Hpd'.
      destruct (sw_up i), (sw_down i); reflexivity.
    - destruct (sw_down i); [reflexivity|].
      destruct (sw_up i); [reflexivity|discriminate]. }
  revert s Hf Hd Hc Hpu Hpd. induction n as [|n IH];
    intros s Hf Hd Hc Hpu Hpd.
  - cbn [repeat]. rewrite run_cons. cbn [run fold_left].
    rewrite Hstep by assumption. fields. repeat split; auto.
  - change (repeat i (S (S n))) with (i :: repeat i (S n)).
    rewrite run_cons.
    pose proof (Hstep s Hf Hd Hc Hpu Hpd) as Hs.
    assert (Hf' : fault (step s i) = false) by (rewrite Hs; fields; exact Hf).
    assert (Hd' : delay_next (step s i) = 0)
      by (rewrite Hs; fields; exact Hd).
    assert (Hc' : correcting (step s i) = false)
      by (rewrite Hs; unfold correcting in *; fields; exact Hc).
    assert (Hpu' : prev_up (step s i) = sw_up i)
      by (rewrite Hs; fields; exact Hpu).
    assert (Hpd' : prev_down (step s i) = sw_down i)
      by (rewrite Hs; fields; exact Hpd).
    destruct (IH (step s i) Hf' Hd' Hc' Hpu' Hpd')
      as (H1 & H2 & H3 & H4 & H5).
    rewrite H1, H2, H3, H4, H5, Hs. fields. repeat split; reflexivity.
Qed.

Lemma steady_press_keeps_driving_witness :
  pins (run lowering (repeat down_held 500)) =
    (if sw_down down_held then port_both_in else port_both_out) /\
  fault (run lowering (repeat down_held 500)) = false /\
  delay_next (run lowering (repeat down_held 500)) = 0 /\
  fix_timer (run lowering (repeat down_held 500)) = fix_timer lowering /\
  fix_direction (run lowering (repeat down_held 500)) = fix_direction lowering.
Proof.
  apply (steady_press_keeps_driving lowering down_held 499); reflexivity.
Defined.

End Recliner.
